(** * hot_redis: a shallow embedding of [hot_redis.py]

    The module gives Python programs list, set and dict objects whose
    contents live in a Redis server.  Every object is a handle holding a
    key and an element type; every method is turned into a Redis command
    (or a registered Lua script) aimed at that key.

    The development follows the module top to bottom: the Python values
    and built-ins the module relies on, the Redis client it talks to, the
    module globals ([_pipeline], [client], [pipeline], [lua_funcs]) and
    the classes [Base], [Iterable], [List], [Set] and [Dict]. *)

From Stdlib Require Import ZArith List String Ascii Bool Lia.
From stdpp Require Import gmap strings list fin_maps pretty.

Local Open Scope string_scope.
Local Open Scope list_scope.

(** ** Python values *)

(** The values the module handles.  The module is Python 2 code ([reduce]
    is a built-in and [map] returns a list), so there are two types of
    integers.  [PInt z] is the integer [z] as a literal, [int] or
    arithmetic on integers make it: an [int] when it fits a machine word
    and a [long] when it does not.  [PLong z] is a [long] of any size, as
    [5L] or [long("5")] make it.  Floats are left out.
    [PPipeline] is the object [redis.pipeline()] returns; a queued command
    answers with that same object. *)
#[warnings="-register-all"]
Inductive PyVal : Type :=
  | PNone
  | PBool (b : bool)
  | PInt (z : Z)
  | PLong (z : Z)
  | PStr (s : string)
  | PList (l : list PyVal)
  | PTuple (l : list PyVal)
  | PSet (l : list PyVal)
  | PDict (d : list (PyVal * PyVal))
  | PPipeline.

(** What [type(value)] answers. *)
Inductive PyType : Type :=
  | TNoneType | TBool | TInt | TLong | TStr | TList | TTuple | TSet | TDict | TPipeline.

Global Instance PyType_eq_dec : EqDecision PyType.
Proof. solve_decision. Defined.

(** The exceptions the module raises or lets through.  [Unending] is no
    exception of Python: it stands for an evaluation that does not come
    to an end, which no [except] clause gets to see either. *)
Inductive PyExc : Type :=
  | TypeError
  | ValueError
  | KeyError
  | IndexError
  | AttributeError (name : string)
  | ResponseError
  | DataError
  | OverflowError
  | MemoryError
  | Unending.

(** The outcome of evaluating an expression: a value or a raised exception. *)
Inductive Res (A : Type) : Type :=
  | Ok (a : A)
  | Raise (e : PyExc).
Arguments Ok {A} a.
Arguments Raise {A} e.

Definition res_bind {A B} (r : Res A) (k : A -> Res B) : Res B :=
  match r with
  | Ok a => k a
  | Raise e => Raise e
  end.

Definition res_map {A B} (f : A -> Res B) : list A -> Res (list B) :=
  fix go (l : list A) : Res (list B) :=
    match l with
    | [] => Ok []
    | x :: r => res_bind (f x) (fun y => res_bind (go r) (fun ys => Ok (y :: ys)))
    end.

(** [sys.maxint] of a 64-bit build, and the integers of a machine word:
    those that make an [int], that index a sequence, and that the server
    reads as a number. *)
Definition maxint : Z := 2 ^ 63 - 1.

Definition int64 (z : Z) : bool := (- maxint - 1 <=? z)%Z && (z <=? maxint)%Z.

Definition type_of (v : PyVal) : PyType :=
  match v with
  | PNone => TNoneType
  | PBool _ => TBool
  | PInt z => if int64 z then TInt else TLong
  | PLong _ => TLong
  | PStr _ => TStr
  | PList _ => TList
  | PTuple _ => TTuple
  | PSet _ => TSet
  | PDict _ => TDict
  | PPipeline => TPipeline
  end.

(** Truth value of an object, as [if], [not] and [or] take it. *)
Definition truthy (v : PyVal) : bool :=
  match v with
  | PNone => false
  | PBool b => b
  | PInt z | PLong z => negb (z =? 0)%Z
  | PStr s => negb (String.eqb s "")
  | PList l | PTuple l | PSet l => negb (Nat.eqb (length l) 0)
  | PDict d => negb (Nat.eqb (length d) 0)
  | PPipeline => true
  end.

(** [a or b]. *)
Definition py_or (a b : PyVal) : PyVal := if truthy a then a else b.

(** [a == b] on the values above.  Booleans compare as the integers 0 and
    1, and an [int] and a [long] by what they count; sets and dicts
    compare regardless of the order of their elements. *)
Fixpoint py_eq (a b : PyVal) : bool :=
  match a, b with
  | PNone, PNone => true
  | PBool x, PBool y => Bool.eqb x y
  | PBool x, (PInt z | PLong z) => (Z.b2z x =? z)%Z
  | (PInt z | PLong z), PBool x => (z =? Z.b2z x)%Z
  | (PInt x | PLong x), (PInt y | PLong y) => (x =? y)%Z
  | PStr x, PStr y => String.eqb x y
  | PList l1, PList l2 | PTuple l1, PTuple l2 =>
      (fix go (l1 l2 : list PyVal) : bool :=
         match l1, l2 with
         | [], [] => true
         | x :: r, y :: s => py_eq x y && go r s
         | _, _ => false
         end) l1 l2
  | PSet l1, PSet l2 =>
      forallb (fun x => existsb (fun y => py_eq x y) l2) l1
      && forallb (fun y => existsb (fun x => py_eq x y) l1) l2
  | PDict d1, PDict d2 =>
      forallb (fun kv => existsb (fun kw =>
                 py_eq (fst kv) (fst kw) && py_eq (snd kv) (snd kw)) d2) d1
      && forallb (fun kw => existsb (fun kv =>
                 py_eq (fst kv) (fst kw) && py_eq (snd kv) (snd kw)) d1) d2
  | PPipeline, PPipeline => true
  | _, _ => false
  end.

(** Whether [hash(v)] succeeds: containers that can change do not hash. *)
Fixpoint hashable (v : PyVal) : bool :=
  match v with
  | PList _ | PSet _ | PDict _ => false
  | PTuple l => forallb hashable l
  | _ => true
  end.

(** Keeps the first of every run of equal elements, as building a set
    from a sequence does. *)
Fixpoint dedupe (seen l : list PyVal) : list PyVal :=
  match l with
  | [] => []
  | x :: r =>
      if existsb (py_eq x) seen then dedupe seen r
      else x :: dedupe (x :: seen) r
  end.

Definition chars (s : string) : list PyVal :=
  map (fun c => PStr (String c EmptyString)) (list_ascii_of_string s).

(** [iter(v)] run to the end: the elements of a sequence or set, the keys
    of a dict, the characters of a string.  The pipeline object has the
    [__getitem__] of the client, so Python asks it for the items 0, 1,
    2 and so on; every one of them is a queued [get] that answers with
    the pipeline object, and the iteration has no end. *)
Definition py_iter (v : PyVal) : Res (list PyVal) :=
  match v with
  | PList l | PTuple l | PSet l => Ok l
  | PDict d => Ok (map fst d)
  | PStr s => Ok (chars s)
  | PPipeline => Raise Unending
  | _ => Raise TypeError
  end.

(** [set(v)]. *)
Definition py_set (v : PyVal) : Res PyVal :=
  res_bind (py_iter v) (fun l =>
    if forallb hashable l then Ok (PSet (dedupe [] l)) else Raise TypeError).

(** ** Conversions *)

(** [str(v)], which is also how the Redis client turns a command argument
    into the bytes it sends.  Inside a container Python prints the [repr]
    of the elements, which for a [long] ends in [L]; escape sequences in
    nested strings are not modelled. *)
Fixpoint py_repr (v : PyVal) : string :=
  let commas := fix commas (l : list PyVal) : string :=
    match l with
    | [] => ""
    | [x] => py_repr x
    | x :: r => py_repr x +:+ ", " +:+ commas r
    end in
  match v with
  | PNone => "None"
  | PBool true => "True"
  | PBool false => "False"
  | PInt z => if int64 z then pretty z else pretty z +:+ "L"
  | PLong z => pretty z +:+ "L"
  | PStr s => "'" +:+ s +:+ "'"
  | PList l => "[" +:+ commas l +:+ "]"
  | PTuple [x] => "(" +:+ py_repr x +:+ ",)"
  | PTuple l => "(" +:+ commas l +:+ ")"
  | PSet l => "set([" +:+ commas l +:+ "])"
  | PDict d =>
      "{" +:+ (fix items (d : list (PyVal * PyVal)) : string :=
                 match d with
                 | [] => ""
                 | [(k, x)] => py_repr k +:+ ": " +:+ py_repr x
                 | (k, x) :: r =>
                     py_repr k +:+ ": " +:+ py_repr x +:+ ", " +:+ items r
                 end) d +:+ "}"
  | PPipeline => "<redis.client.Pipeline object>"
  end.

Definition py_str (v : PyVal) : string :=
  match v with
  | PStr s => s
  | PInt z | PLong z => pretty z
  | _ => py_repr v
  end.

Definition digit_of (c : ascii) : option Z :=
  let n := nat_of_ascii c in
  if (48 <=? n)%nat && (n <=? 57)%nat then Some (Z.of_nat (n - 48)) else None.

Fixpoint parse_digits (acc : Z) (l : list ascii) : option Z :=
  match l with
  | [] => Some acc
  | c :: r =>
      match digit_of c with
      | Some d => parse_digits (10 * acc + d)%Z r
      | None => None
      end
  end.

(** A decimal integer with an optional sign: what [int(s)] accepts once
    the blanks around it are gone. *)
Definition parse_int (s : string) : option Z :=
  match list_ascii_of_string s with
  | [] => None
  | "-"%char :: ((_ :: _) as r) => Z.opp <$> parse_digits 0 r
  | "+"%char :: ((_ :: _) as r) => parse_digits 0 r
  | l => parse_digits 0 l
  end.

Definition is_space (c : ascii) : bool :=
  let n := nat_of_ascii c in
  (n =? 32)%nat || ((9 <=? n)%nat && (n <=? 13)%nat).

Fixpoint lstrip (l : list ascii) : list ascii :=
  match l with
  | c :: r => if is_space c then lstrip r else l
  | [] => []
  end.

Definition strip (s : string) : string :=
  string_of_list_ascii (rev (lstrip (rev (lstrip (list_ascii_of_string s))))).

(** [dict(seq)]: every element of the sequence has to be a sequence of
    two elements, a key and a value; a later key replaces an equal
    earlier one. *)
Definition dict_put (k x : PyVal) (d : list (PyVal * PyVal)) : list (PyVal * PyVal) :=
  if existsb (fun kv => py_eq (fst kv) k) d
  then map (fun kv => if py_eq (fst kv) k then (fst kv, x) else kv) d
  else d ++ [(k, x)].

Fixpoint dict_of_pairs (acc : list (PyVal * PyVal)) (l : list PyVal) : Res PyVal :=
  match l with
  | [] => Ok (PDict acc)
  | p :: r =>
      match py_iter p with
      | Ok [k; x] =>
          if hashable k then dict_of_pairs (dict_put k x acc) r else Raise TypeError
      | Ok _ => Raise ValueError
      | Raise e => Raise e
      end
  end.

(** What [long(s)] accepts beyond [int(s)]: an [L] at the end. *)
Definition parse_long (s : string) : option Z :=
  match rev (list_ascii_of_string s) with
  | ("L"%char | "l"%char) :: r =>
      match parse_int (string_of_list_ascii (rev r)) with
      | Some z => Some z
      | None => parse_int s
      end
  | _ => parse_int s
  end.

(** [t(v)]: calling a type on a value, which is what [_set_type] does with
    the element type of a handle. *)
Definition py_call_type (t : PyType) (v : PyVal) : Res PyVal :=
  match t with
  | TNoneType => Raise TypeError
  | TBool => Ok (PBool (truthy v))
  | TInt =>
      match v with
      | PBool b => Ok (PInt (Z.b2z b))
      | PInt z | PLong z => Ok (PInt z)
      | PStr s =>
          match parse_int (strip s) with
          | Some z => Ok (PInt z)
          | None => Raise ValueError
          end
      | _ => Raise TypeError
      end
  | TLong =>
      match v with
      | PBool b => Ok (PLong (Z.b2z b))
      | PInt z | PLong z => Ok (PLong z)
      | PStr s =>
          match parse_long (strip s) with
          | Some z => Ok (PLong z)
          | None => Raise ValueError
          end
      | _ => Raise TypeError
      end
  | TStr => Ok (PStr (py_str v))
  | TList => res_bind (py_iter v) (fun l => Ok (PList l))
  | TTuple => res_bind (py_iter v) (fun l => Ok (PTuple l))
  | TSet => py_set v
  | TDict =>
      match v with
      | PDict d => Ok (PDict d)
      | _ => res_bind (py_iter v) (dict_of_pairs [])
      end
  | TPipeline => Raise TypeError
  end.

(** ** Order *)

(** The operators [<], [<=], [>] and [>=]. *)
Inductive Ordering : Type := op_lt | op_le | op_gt | op_ge.

(** [a op b] asks of [b] what the mirrored operator asks of [a]. *)
Definition mirrored (op : Ordering) : Ordering :=
  match op with
  | op_lt => op_gt
  | op_le => op_ge
  | op_gt => op_lt
  | op_ge => op_le
  end.

(** What an operator answers when its left side compares as [c] with
    its right side. *)
Definition holds (op : Ordering) (c : comparison) : bool :=
  match op, c with
  | op_lt, Lt | op_le, (Lt | Eq) | op_gt, Gt | op_ge, (Gt | Eq) => true
  | _, _ => false
  end.

(** Induction over values that reaches the elements of the containers. *)
Section PyVal_induction.
Variable P : PyVal -> Prop.
Hypothesis HNone : P PNone.
Hypothesis HBool : forall b, P (PBool b).
Hypothesis HInt : forall z, P (PInt z).
Hypothesis HLong : forall z, P (PLong z).
Hypothesis HStr : forall s, P (PStr s).
Hypothesis HList : forall l, Forall P l -> P (PList l).
Hypothesis HTuple : forall l, Forall P l -> P (PTuple l).
Hypothesis HSet : forall l, Forall P l -> P (PSet l).
Hypothesis HDict : forall d, Forall (fun kv => P (fst kv) /\ P (snd kv)) d -> P (PDict d).
Hypothesis HPipeline : P PPipeline.

Fixpoint PyVal_nested_ind (v : PyVal) : P v :=
  let all := fix all (l : list PyVal) : Forall P l :=
    match l with
    | [] => @List.Forall_nil _ P
    | x :: r => @List.Forall_cons _ P x r (PyVal_nested_ind x) (all r)
    end in
  match v with
  | PNone => HNone
  | PBool b => HBool b
  | PInt z => HInt z
  | PLong z => HLong z
  | PStr s => HStr s
  | PList l => HList l (all l)
  | PTuple l => HTuple l (all l)
  | PSet l => HSet l (all l)
  | PDict d =>
      HDict d
        ((fix items (d : list (PyVal * PyVal)) :
            Forall (fun kv => P (fst kv) /\ P (snd kv)) d :=
            match d with
            | [] => @List.Forall_nil _ _
            | (k, x) :: r =>
                @List.Forall_cons _ _ (k, x) r
                  (conj (PyVal_nested_ind k) (PyVal_nested_ind x)) (items r)
            end) d)
  | PPipeline => HPipeline
  end.
End PyVal_induction.

(** ** The Redis server *)

(** What a key holds.  The server keeps only byte strings; a key whose
    collection becomes empty is removed. *)
Inductive RVal : Type :=
  | RList (l : list string)
  | RSet (m : gset string)
  | RHash (h : gmap string string).

Abbreviation Store := (gmap string RVal).

Definition get_list (k : string) (s : Store) : Res (list string) :=
  match s !! k with
  | None => Ok []
  | Some (RList l) => Ok l
  | Some _ => Raise ResponseError
  end.

Definition put_list (k : string) (l : list string) (s : Store) : Store :=
  match l with
  | [] => delete k s
  | _ => <[k := RList l]> s
  end.

Definition get_set (k : string) (s : Store) : Res (gset string) :=
  match s !! k with
  | None => Ok ∅
  | Some (RSet m) => Ok m
  | Some _ => Raise ResponseError
  end.

Definition put_set (k : string) (m : gset string) (s : Store) : Store :=
  if decide (m = ∅) then delete k s else <[k := RSet m]> s.

Definition get_hash (k : string) (s : Store) : Res (gmap string string) :=
  match s !! k with
  | None => Ok ∅
  | Some (RHash h) => Ok h
  | Some _ => Raise ResponseError
  end.

Definition put_hash (k : string) (h : gmap string string) (s : Store) : Store :=
  if decide (h = ∅) then delete k s else <[k := RHash h]> s.

(** An index counted from the end when negative. *)
Definition from_end (n i : Z) : Z := if (i <? 0)%Z then (i + n)%Z else i.

(** LRANGE: both ends are inclusive, negative ends count from the end of
    the list, and what falls outside the list is cut off. *)
Definition redis_lrange (l : list string) (start stop : Z) : list string :=
  let n := Z.of_nat (length l) in
  let start := Z.max (from_end n start) 0 in
  let stop := from_end n stop in
  if (stop <? start)%Z || (n <=? start)%Z then []
  else take (Z.to_nat (Z.min stop (n - 1) - start + 1)) (drop (Z.to_nat start) l).

(** A reply of the server and the store it leaves. *)
Definition Reply : Type := Res PyVal * Store.

Definition with_list (k : string) (s : Store) (f : list string -> Reply) : Reply :=
  match get_list k s with Ok l => f l | Raise e => (Raise e, s) end.

Definition with_set (k : string) (s : Store) (f : gset string -> Reply) : Reply :=
  match get_set k s with Ok m => f m | Raise e => (Raise e, s) end.

Definition with_hash (k : string) (s : Store) (f : gmap string string -> Reply) : Reply :=
  match get_hash k s with Ok h => f h | Raise e => (Raise e, s) end.

(** How the server reads an argument that has to be a number: the
    decimal text of an integer of 64 bits, with no blank, no plus sign and
    no zero in front. *)
Definition redis_int (a : string) : option Z :=
  match parse_int a with
  | Some z => if String.eqb (pretty z) a && int64 z then Some z else None
  | None => None
  end.

Definition with_int (a : string) (s : Store) (f : Z -> Reply) : Reply :=
  match redis_int a with Some z => f z | None => (Raise ResponseError, s) end.

Definition nil_or_str (o : option string) : PyVal :=
  match o with Some x => PStr x | None => PNone end.

Fixpoint hash_put_all (h : gmap string string) (l : list string) : gmap string string :=
  match l with
  | f :: x :: r => hash_put_all (<[f := x]> h) r
  | _ => h
  end.

(** The commands the module sends, as the server runs them on the key [k]
    with the arguments [args], and the reply as the client hands it to
    Python.  LRANGE reads its two numbers before it looks at the key;
    LINDEX looks at the key first and answers nil for a key that is not
    there, whatever the index.  SPOP takes a member of the server's
    choosing; here the first one in the order [elements] lists them. *)
Definition redis_execute (name k : string) (args : list string) (s : Store) : Reply :=
  match name, args with
  | "delete", _ =>
      let ks := filter (fun x => is_Some (s !! x)) (remove_dups (k :: args)) in
      (Ok (PInt (Z.of_nat (length ks))), foldr delete s ks)
  | "llen", [] =>
      with_list k s (fun l => (Ok (PInt (Z.of_nat (length l))), s))
  | "lrange", [a; b] =>
      with_int a s (fun start => with_int b s (fun stop => with_list k s (fun l =>
        (Ok (PList (map PStr (redis_lrange l start stop))), s))))
  | "lindex", [a] =>
      match s !! k with
      | None => (Ok PNone, s)
      | Some _ =>
          with_list k s (fun l => with_int a s (fun i =>
            let i := from_end (Z.of_nat (length l)) i in
            (Ok (if (i <? 0)%Z then PNone else nil_or_str (l !! Z.to_nat i)), s)))
      end
  | "lset", [a; x] =>
      with_list k s (fun l => with_int a s (fun i =>
        let i := from_end (Z.of_nat (length l)) i in
        if (0 <=? i)%Z && (i <? Z.of_nat (length l))%Z
        then (Ok (PBool true), put_list k (<[Z.to_nat i := x]> l) s)
        else (Raise ResponseError, s)))
  | "rpush", _ :: _ =>
      with_list k s (fun l =>
        (Ok (PInt (Z.of_nat (length (l ++ args)))), put_list k (l ++ args) s))
  | "rpop", [] =>
      with_list k s (fun l =>
        (Ok (nil_or_str (last l)), put_list k (removelast l) s))
  | "lpop", [] =>
      with_list k s (fun l =>
        (Ok (nil_or_str (head l)), put_list k (tail l) s))
  | "sadd", _ :: _ =>
      with_set k s (fun m =>
        let m' := m ∪ list_to_set args in
        (Ok (PInt (Z.of_nat (size m' - size m))), put_set k m' s))
  | "srem", _ :: _ =>
      with_set k s (fun m =>
        let m' := m ∖ list_to_set args in
        (Ok (PInt (Z.of_nat (size m - size m'))), put_set k m' s))
  | "smembers", [] =>
      with_set k s (fun m => (Ok (PSet (map PStr (elements m))), s))
  | "scard", [] =>
      with_set k s (fun m => (Ok (PInt (Z.of_nat (size m))), s))
  | "sismember", [x] =>
      with_set k s (fun m => (Ok (PBool (bool_decide (x ∈ m))), s))
  | "spop", [] =>
      with_set k s (fun m =>
        match elements m with
        | [] => (Ok PNone, s)
        | x :: _ => (Ok (PStr x), put_set k (m ∖ {[x]}) s)
        end)
  | "hget", [f] =>
      with_hash k s (fun h => (Ok (nil_or_str (h !! f)), s))
  | "hset", [f; x] =>
      with_hash k s (fun h =>
        (Ok (PInt (if h !! f is Some _ then 0 else 1)), put_hash k (<[f := x]> h) s))
  | "hsetnx", [f; x] =>
      with_hash k s (fun h =>
        match h !! f with
        | Some _ => (Ok (PInt 0), s)
        | None => (Ok (PInt 1), put_hash k (<[f := x]> h) s)
        end)
  | "hdel", _ :: _ =>
      with_hash k s (fun h =>
        let fs := filter (fun f => is_Some (h !! f)) (remove_dups args) in
        (Ok (PInt (Z.of_nat (length fs))), put_hash k (foldr delete h fs) s))
  | "hgetall", [] =>
      with_hash k s (fun h =>
        (Ok (PDict (map (fun fx => (PStr (fst fx), PStr (snd fx))) (map_to_list h))), s))
  | "hkeys", [] =>
      with_hash k s (fun h => (Ok (PList (map (fun fx => PStr (fst fx)) (map_to_list h))), s))
  | "hmset", _ :: _ =>
      with_hash k s (fun h => (Ok (PBool true), put_hash k (hash_put_all h args) s))
  | _, _ => (Raise ResponseError, s)
  end.

(** ** The Redis client *)

(** A method of the client object: [prepare] is the Python side of the
    call (the signature of the method and the encoding of the arguments
    as byte strings), [execute] the server side. *)
Record Method : Type := {
  prepare : list PyVal -> Res (list string);
  execute : string -> list string -> Store -> Reply
}.

Definition fixed (n : nat) (a : list PyVal) : Res (list string) :=
  if Nat.eqb (length a) n then Ok (map py_str a) else Raise TypeError.

Definition variadic (a : list PyVal) : Res (list string) := Ok (map py_str a).

(** [hmset(name, mapping)] refuses an empty mapping and walks the items of
    the mapping. *)
Definition hmset_prepare (a : list PyVal) : Res (list string) :=
  match a with
  | [mapping] =>
      if negb (truthy mapping) then Raise DataError
      else match mapping with
           | PDict d => Ok (flat_map (fun kv => [py_str (fst kv); py_str (snd kv)]) d)
           | _ => Raise (AttributeError "iteritems")
           end
  | _ => Raise TypeError
  end.

Definition redis_prepare (name : string) : option (list PyVal -> Res (list string)) :=
  match name with
  | "delete" | "rpush" | "sadd" | "srem" | "hdel" => Some variadic
  | "llen" | "rpop" | "lpop" | "smembers" | "scard" | "spop"
  | "hgetall" | "hkeys" => Some (fixed 0)
  | "lindex" | "sismember" | "hget" => Some (fixed 1)
  | "lrange" | "lset" | "hset" | "hsetnx" => Some (fixed 2)
  | "hmset" => Some hmset_prepare
  | _ => None
  end.

(** A command waiting in a pipeline: method name, key, encoded arguments. *)
Definition Queued : Type := string * string * list string.

(** A registered Lua script, called with keys and arguments. *)
Definition Script : Type := list string -> list string -> Store -> Reply.

(** The state of the process and of the server: the store, the pipeline
    objects made so far with the commands each one holds, and the module
    global [_pipeline], which is [None] or refers to one of them. *)
Record World : Type := {
  store : Store;
  pipelines : list (list Queued);
  _pipeline : option nat
}.

Definition set_store (s : Store) (w : World) : World :=
  {| store := s; pipelines := pipelines w; _pipeline := _pipeline w |}.

(** What [client()] answers: the connection or a pipeline object. *)
Inductive Client : Type :=
  | Redis
  | Pipeline (ref : nat).

(** The classes of the module with an element type. *)
Inductive Class : Type := CList | CSet | CDict.

Global Instance Class_eq_dec : EqDecision Class.
Proof. solve_decision. Defined.

(** A handle: an instance of one of the classes, with its [key] and its
    [type] attribute. *)
Record Handle : Type := {
  cls : Class;
  key : string;
  type : option PyType
}.

Definition set_type_attr (t : option PyType) (h : Handle) : Handle :=
  {| cls := cls h; key := key h; type := t |}.

(** Methods run on [self] and on the world, change both, and end with a
    value or an exception. *)
Definition M (A : Type) : Type := Handle -> World -> Res A * Handle * World.

Definition ret {A} (a : A) : M A := fun h w => (Ok a, h, w).
Definition raise {A} (e : PyExc) : M A := fun h w => (Raise e, h, w).
Definition bind {A B} (m : M A) (k : A -> M B) : M B :=
  fun h w =>
    match m h w with
    | (Ok a, h', w') => k a h' w'
    | (Raise e, h', w') => (Raise e, h', w')
    end.
Definition lift {A} (r : Res A) : M A := fun h w => (r, h, w).
Definition get_self : M Handle := fun h w => (Ok h, h, w).
Definition get_world : M World := fun h w => (Ok w, h, w).

(** [try: m except e: handler]. *)
Definition try_except {A} (m : M A) (handles : PyExc -> bool) (handler : M A) : M A :=
  fun h w =>
    match m h w with
    | (Raise e, h', w') => if handles e then handler h' w' else (Raise e, h', w')
    | r => r
    end.

Notation "x <~ m ;; k" := (bind m (fun x => k))
  (at level 100, m at next level, right associativity).
Notation "m ;;; k" := (bind m (fun _ => k))
  (at level 100, right associativity).

(** ** Sample states *)

(** A client with no attribute beyond the commands above, a process with
    no pipeline and a server holding nothing, and one handle of each
    class. *)
Definition no_other : string -> option Method := fun _ => None.

Definition empty_world : World :=
  {| store := ∅; pipelines := []; _pipeline := None |}.

Definition a_list : Handle := {| cls := CList; key := "l"; type := None |}.
Definition a_set : Handle := {| cls := CSet; key := "s"; type := None |}.
Definition a_dict : Handle := {| cls := CDict; key := "d"; type := None |}.

(** Handles that have a type already, and servers that hold a list, a
    set and a hash under the keys of the sample handles. *)
Definition str_list : Handle := set_type_attr (Some TStr) a_list.
Definition int_list : Handle := set_type_attr (Some TInt) a_list.
Definition str_set : Handle := set_type_attr (Some TStr) a_set.

Definition list_world : World :=
  {| store := {[ "l" := RList ["a"; "b"; "c"] ]}; pipelines := []; _pipeline := None |}.

Definition set_world : World :=
  {| store := {[ "s" := RSet {[ "a"; "b" ]} ]}; pipelines := []; _pipeline := None |}.

Definition dict_world : World :=
  {| store := {[ "d" := RHash {[ "a" := "5" ]} ]}; pipelines := []; _pipeline := None |}.

Definition batch_world : World :=
  {| store := ∅; pipelines := [[]]; _pipeline := Some 0%nat |}.

(** The order of Python on two lists of strings: the first place where
    the two differ decides, and of two lists that do not differ where
    both go on the shorter one is the smaller.  The sample handles hold
    lists of strings and the samples compare nothing else; for any other
    two values this function raises [TypeError], where Python has an
    answer of its own. *)
Fixpoint strings_compare (x y : list string) : comparison :=
  match x, y with
  | [], [] => Eq
  | [], _ :: _ => Lt
  | _ :: _, [] => Gt
  | a :: x', b :: y' =>
      match String.compare a b with
      | Eq => strings_compare x' y'
      | c => c
      end
  end.

Definition as_strings (l : list PyVal) : option (list string) :=
  mapM (fun v => match v with PStr s => Some s | _ => None end) l.

Definition strings_order (op : Ordering) (a b : PyVal) : Res bool :=
  match a, b with
  | PList x, PList y =>
      match as_strings x, as_strings y with
      | Some x', Some y' => Ok (holds op (strings_compare x' y'))
      | _, _ => Raise TypeError
      end
  | _, _ => Raise TypeError
  end.

(** Modelled from the spec: [atoms.lua] is not among the sources, and of
    the script [list_reverse] the spec says that it reverses the list in
    place.  Only the sample catalog uses it. *)
Definition list_reverse_script : Script :=
  fun keys args s =>
    match keys with
    | [k] => with_list k s (fun l => (Ok PNone, put_list k (rev l) s))
    | _ => (Raise ResponseError, s)
    end.

Definition sample_scripts : gmap string Script :=
  {[ "list_reverse" := list_reverse_script ]}.

Section HotRedis.

(** The attributes of the client object beyond the commands above, and the
    scripts read from [atoms.lua]: both are given from outside the
    module. *)
Variable redis_other : string -> option Method.
Variable lua_funcs : gmap string Script.

(** [a < b], [a <= b], [a > b] and [a >= b] on two plain values, as the
    interpreter answers them.  Python 2 puts values of every type in
    order, those of different types by rules of its own making (type
    names, addresses); the module relies on none of them and hands the
    answer on. *)
Variable py_order : Ordering -> PyVal -> PyVal -> Res bool.

(** ** Module globals *)

(** [getattr(client(), name)]: the connection and its pipelines have the
    same methods.  [None] stands for [AttributeError]. *)
Definition redis_getattr (name : string) : option Method :=
  match redis_prepare name with
  | Some p => Some {| prepare := p; execute := redis_execute name |}
  | None => redis_other name
  end.

(** [client = lambda: _pipeline or redis]; a pipeline object is true. *)
Definition client (w : World) : Client :=
  match _pipeline w with
  | Some ref => Pipeline ref
  | None => Redis
  end.

(** [redis.pipeline()]: a new pipeline object holding no command. *)
Definition redis_pipeline (w : World) : nat * World :=
  (length (pipelines w),
   {| store := store w; pipelines := pipelines w ++ [[]]; _pipeline := _pipeline w |}).

(** Runs queued commands in order.  Every command runs, also after one
    that failed; the first failure is raised at the end. *)
Fixpoint execute_all (q : list Queued) (s : Store) : Res (list PyVal) * Store :=
  match q with
  | [] => (Ok [], s)
  | (name, k, args) :: r =>
      let '(reply, s1) :=
        match redis_getattr name with
        | Some m => execute m k args s
        | None => (Raise ResponseError, s)
        end in
      let '(rest, s2) := execute_all r s1 in
      (res_bind reply (fun v => res_bind rest (fun vs => Ok (v :: vs))), s2)
  end.

(** [p.execute()] on the pipeline object [ref]: runs what it holds and
    empties it. *)
Definition pipeline_execute (ref : nat) (w : World) : Res (list PyVal) * World :=
  let '(r, s') := execute_all (default [] (pipelines w !! ref)) (store w) in
  (r, {| store := s'; pipelines := <[ref := []]> (pipelines w); _pipeline := _pipeline w |}).

(** [pipeline()] up to its [yield]: what entering the [with] block runs. *)
Definition pipeline_enter (w : World) : Res unit * World :=
  let '(ref, w') := redis_pipeline w in
  (Ok tt, {| store := store w'; pipelines := pipelines w'; _pipeline := Some ref |}).

(** [pipeline()] after its [yield]: what leaving the [with] block runs. *)
Definition pipeline_exit (w : World) : Res unit * World :=
  match _pipeline w with
  | None => (Raise (AttributeError "execute"), w)
  | Some ref =>
      match pipeline_execute ref w with
      | (Ok _, w') =>
          (Ok tt, {| store := store w'; pipelines := pipelines w'; _pipeline := None |})
      | (Raise e, w') => (Raise e, w')
      end
  end.

(** ** class Base *)

(** What [_proxy] returns: a function of the call arguments (keyword
    arguments are not modelled). *)
Definition Callable : Type := list PyVal -> World -> Res PyVal * World.

(** [func(self.key, *a)] for a method [func] of the client [c]: the
    connection runs the command, a pipeline keeps it and answers with
    itself. *)
Definition call_method (c : Client) (name : string) (m : Method) (k : string) : Callable :=
  fun a w =>
    match prepare m a with
    | Raise e => (Raise e, w)
    | Ok args =>
        match c with
        | Redis =>
            let '(r, s') := execute m k args (store w) in (r, set_store s' w)
        | Pipeline ref =>
            (Ok PPipeline,
             {| store := store w;
                pipelines := alter (fun q => q ++ [(name, k, args)]) ref (pipelines w);
                _pipeline := _pipeline w |})
        end
    end.

(** [func(keys=[self.key], args=a)] for a script [func]. *)
Definition call_script (f : Script) (k : string) : Callable :=
  fun a w =>
    let '(r, s') := f [k] (map py_str a) (store w) in (r, set_store s' w).

Definition Base__proxy (self : Handle) (name : string) (w : World) : Res Callable :=
  match redis_getattr name with
  | Some m => Ok (call_method (client w) name m (key self))
  | None =>
      match lua_funcs !! name with
      | Some f => Ok (call_script f (key self))
      | None => Raise (AttributeError name)
      end
  end.

(** ** class Iterable *)

Definition Iterable___init__ (c : Class) (k : string) : Handle :=
  {| cls := c; key := k; type := None |}.

(** [type(value).__name__ == type(self).__name__.lower()] *)
Definition _is_many (self : Handle) (value : PyVal) : bool :=
  match cls self, value with
  | CList, PList _ | CSet, PSet _ | CDict, PDict _ => true
  | _, _ => false
  end.

(** [map(self._set_type, value)] walks a list or a set by its elements and
    a dict by its keys; the list it makes is turned back into the type of
    [value] unless that is a list already. *)
Fixpoint _set_type (self : Handle) (value : PyVal) {struct value} : Res PyVal :=
  if decide (type self = Some TStr) then Ok value
  else
    match cls self, value with
    | CList, PList l =>
        res_bind (res_map (_set_type self) l) (fun typed_value =>
        Ok (PList typed_value))
    | CSet, PSet l =>
        res_bind (res_map (_set_type self) l) (fun typed_value =>
        py_call_type TSet (PList typed_value))
    | CDict, PDict d =>
        res_bind (res_map (fun kv => _set_type self (fst kv)) d) (fun typed_value =>
        py_call_type TDict (PList typed_value))
    | _, _ =>
        match type self with
        | Some t => py_call_type t value
        | None => Ok value
        end
    end.

(** [map(f, value)] for an [f] that checks: the elements are checked in
    order until one raises. *)
Definition check_each {A} (f : A -> Handle -> Res unit * Handle)
  : list A -> Handle -> Res unit * Handle :=
  fix each (l : list A) (self : Handle) : Res unit * Handle :=
    match l with
    | [] => (Ok tt, self)
    | x :: r =>
        match f x self with
        | (Ok _, self') => each r self'
        | (Raise e, self') => (Raise e, self')
        end
    end.

(** A type object is true, so [not self.type] asks whether the attribute
    is still [None].  What the method has assigned stays assigned when it
    raises further on. *)
Fixpoint _check_type (value : PyVal) (self : Handle) {struct value} : Res unit * Handle :=
  match cls self, value with
  | CList, PList l | CSet, PSet l => check_each _check_type l self
  | CDict, PDict d => check_each (fun kv => _check_type (fst kv)) d self
  | _, _ =>
      let t := type_of value in
      match type self with
      | None => (Ok tt, set_type_attr (Some t) self)
      | Some t' => if decide (t = t') then (Ok tt, self) else (Raise TypeError, self)
      end
  end.

Definition check_type (value : PyVal) : M unit :=
  fun self w => let '(r, self') := _check_type value self in (r, self', w).

(** [Iterable._proxy]: the function of [Base._proxy] with its result, when
    it is not [None], passed through [_set_type]. *)
Definition Iterable__proxy (name : string) : M (list PyVal -> M PyVal) :=
  fun self w =>
    match Base__proxy self name w with
    | Raise e => (Raise e, self, w)
    | Ok func =>
        (Ok (fun args self' w' =>
               match func args w' with
               | (Ok PNone, w'') => (Ok PNone, self', w'')
               | (Ok value, w'') => (_set_type self' value, self', w'')
               | (Raise e, w'') => (Raise e, self', w'')
               end), self, w)
    end.

(** A call [self.name(a, b)]: [__getattr__] finds the function, then it
    is called. *)
Definition call (name : string) (args : list PyVal) : M PyVal :=
  wrapper <~ Iterable__proxy name ;; wrapper args.

(** A call [self.name] on the unpacked [l]: the attribute is looked up
    before [l] is unpacked. *)
Definition call_unpacked (name : string) (l : PyVal) : M PyVal :=
  wrapper <~ Iterable__proxy name ;;
  args <~ lift (py_iter l) ;;
  wrapper args.

(** [__del__], which runs when the handle goes away: [self.delete()]. *)
Definition Base___del__ : M PyVal := call "delete" [] ;;; ret PNone.

(** What a comparison is given: a plain value or another handle. *)
Inductive Operand : Type :=
  | OValue (v : PyVal)
  | OHandle (h : Handle).

(** Runs a method of another handle; [self] stays as it is. *)
Definition on {A} (other : Handle) (m : M A) : M A :=
  fun self w => let '(r, _, w') := m other w in (r, self, w').

(** ** class List *)

(** A subscript: [l[start:stop]] or [l[i]]; a bound left out is [None]. *)
Inductive Index : Type :=
  | Slice (start stop : PyVal)
  | Item (i : PyVal).

(** [stop - 1] *)
Definition py_sub1 (v : PyVal) : Res PyVal :=
  match v with
  | PInt z => Ok (PInt (z - 1))
  | PLong z => Ok (PLong (z - 1))
  | PBool b => Ok (PInt (Z.b2z b - 1))
  | _ => Raise TypeError
  end.

Definition or_zero (v : PyVal) : PyVal :=
  match v with PNone => PInt 0 | _ => v end.

Definition List___getitem__ (i : Index) : M PyVal :=
  match i with
  | Slice istart istop =>
      let start := or_zero istart in
      let stop := or_zero istop in
      wrapper <~ Iterable__proxy "lrange" ;;
      stop1 <~ lift (py_sub1 stop) ;;
      wrapper [start; stop1]
  | Item i =>
      item <~ call "lindex" [i] ;;
      match item with
      | PNone => raise IndexError
      | _ => ret item
      end
  end.

Definition List_value : M PyVal := List___getitem__ (Slice PNone PNone).

Definition List___len__ : M PyVal := call "llen" [].

Definition List___setitem__ (i value : PyVal) : M PyVal :=
  check_type value ;;;
  try_except (call "lset" [i; value] ;;; ret PNone)
    (fun e => match e with ResponseError => true | _ => false end)
    (raise IndexError).

Definition List_extend (l : PyVal) : M PyVal :=
  check_type l ;;;
  call_unpacked "rpush" l ;;;
  ret PNone.

Definition List_append (value : PyVal) : M PyVal := List_extend (PList [value]).

Definition List_insert (i value : PyVal) : M PyVal :=
  check_type value ;;;
  call "list_insert" [i; value] ;;;
  ret PNone.

Definition List_pop (i : PyVal) : M PyVal :=
  if py_eq i (PInt (-1)) then call "rpop" []
  else if py_eq i (PInt 0) then call "lpop" []
  else call "list_pop" [i].

Definition List___delitem__ (i : PyVal) : M PyVal := List_pop i ;;; ret PNone.

(** [__imul__] ends in [return self]. *)
Definition List___imul__ (i : PyVal) : M unit := call "list_multiply" [i] ;;; ret tt.

Definition List_reverse : M PyVal := call "list_reverse" [] ;;; ret PNone.

Fixpoint index_of (x : PyVal) (l : list PyVal) : option nat :=
  match l with
  | [] => None
  | y :: r => if py_eq y x then Some 0%nat else S <$> index_of x r
  end.

(** [self.value.index(value)] and [self.value.count(value)]: methods of
    whatever [self.value] is. *)
Definition List_index (value : PyVal) : M PyVal :=
  v <~ List_value ;;
  match v with
  | PList l =>
      match index_of value l with
      | Some n => ret (PInt (Z.of_nat n))
      | None => raise ValueError
      end
  | _ => raise (AttributeError "index")
  end.

Definition List_count (value : PyVal) : M PyVal :=
  v <~ List_value ;;
  match v with
  | PList l => ret (PInt (Z.of_nat (length (filter (fun y => py_eq y value = true) l))))
  | _ => raise (AttributeError "count")
  end.

(** [List(value, key)] with the key given: the constructor body, run on
    the handle [Iterable.__init__] has set up.  [list(value)] walks the
    value to its end, and only [TypeError] is caught. *)
Definition List___init__ (value : PyVal) : M PyVal :=
  let body (value : PyVal) : M PyVal :=
    if truthy value then List_extend value else ret PNone in
  match value with
  | PList _ => body value
  | _ =>
      match py_iter value with
      | Ok _ => body value
      | Raise TypeError => body PNone
      | Raise e => raise e
      end
  end.

(** ** class Set *)

Definition Set_value : M PyVal := call "smembers" [].

(** The operators [_reduce] is given.  What they are applied to has gone
    through [set(value)] in the loop before, so it is a string or a
    container and no number; of these [ior], [iand] and [isub] work on
    two sets and on nothing else. *)
Inductive SetOp : Type := ior | iand | isub.

Definition apply_op (op : SetOp) (a b : PyVal) : Res PyVal :=
  match a, b with
  | PSet x, PSet y =>
      Ok (PSet match op with
               | ior => x ++ filter (fun v => existsb (py_eq v) x = false) y
               | iand => filter (fun v => existsb (py_eq v) y = true) x
               | isub => filter (fun v => existsb (py_eq v) y = false) x
               end)
  | _, _ => Raise TypeError
  end.

(** [reduce(op, values)] *)
Definition py_reduce (op : SetOp) (values : list PyVal) : Res PyVal :=
  match values with
  | [] => Raise TypeError
  | x :: r => foldl (fun acc y => res_bind acc (fun a => apply_op op a y)) (Ok x) r
  end.

(** The loop of [_reduce]: every value is turned into a set and checked;
    the list comprehension after it walks the value once more and its
    result is dropped. *)
Fixpoint reduce_loop (values : list PyVal) : M unit :=
  match values with
  | [] => ret tt
  | value :: r =>
      as_set <~ lift (py_set value) ;;
      check_type as_set ;;;
      lift (py_iter value) ;;;
      reduce_loop r
  end.

Definition Set__reduce (op : SetOp) (values : list PyVal) : M PyVal :=
  reduce_loop values ;;;
  lift (py_reduce op values).

Definition Set_update (values : list PyVal) : M PyVal :=
  wrapper <~ Iterable__proxy "sadd" ;;
  members <~ Set__reduce ior values ;;
  args <~ lift (py_iter members) ;;
  wrapper args ;;;
  ret PNone.

Definition Set_add (value : PyVal) : M PyVal := Set_update [PList [value]].

Definition Set_pop : M PyVal := call "spop" [].

Definition Set_clear : M PyVal := call "delete" [] ;;; ret PNone.

Definition Set_remove (value : PyVal) : M PyVal :=
  check_type value ;;;
  n <~ call "srem" [value] ;;
  if py_eq n (PInt 0) then raise KeyError else ret PNone.

Definition Set_discard (value : PyVal) : M PyVal :=
  try_except (Set_remove value)
    (fun e => match e with KeyError => true | _ => false end)
    (ret PNone).

Definition Set___len__ : M PyVal := call "scard" [].

Definition Set___contains__ (value : PyVal) : M PyVal := call "sismember" [value].

(** The set algebra on plain values.  [_all_redis(values)] holds of plain
    values only when there is none, and then the command is sent with no
    other key.  The methods that end in [return self] give nothing here:
    the handle is the state the method runs on. *)
Definition Set_intersection (values : list PyVal) : M PyVal :=
  match values with
  | [] => call "sinter" []
  | _ => mine <~ Set_value ;; Set__reduce iand (mine :: values)
  end.

Definition Set_union (values : list PyVal) : M PyVal :=
  match values with
  | [] => call "sunion" []
  | _ => mine <~ Set_value ;; Set__reduce ior (mine :: values)
  end.

Definition Set_difference (values : list PyVal) : M PyVal :=
  match values with
  | [] => call "sdiff" []
  | _ => mine <~ Set_value ;; Set__reduce isub (mine :: values)
  end.

Definition Set_intersection_update (values : list PyVal) : M unit :=
  match values with
  | [] =>
      self <~ get_self ;;
      call "sinterstore" [PStr (key self)] ;;; ret tt
  | _ =>
      members <~ Set__reduce iand values ;;
      args <~ lift (py_iter members) ;;
      call "set_intersection_update" args ;;; ret tt
  end.

Definition Set_difference_update (values : list PyVal) : M unit :=
  match values with
  | [] =>
      self <~ get_self ;;
      call "sdiffstore" [PStr (key self)] ;;; ret tt
  | _ =>
      members <~ Set__reduce isub values ;;
      args <~ lift (py_iter members) ;;
      call "set_difference_update" args ;;; ret tt
  end.

Definition Set_isdisjoint (value : PyVal) : M PyVal :=
  common <~ Set_intersection [value] ;;
  ret (PBool (negb (truthy common))).

(** [Set(value, key)] with the key given.  [iter(value)] only asks for an
    iterator and walks nothing: it raises [TypeError] for a value that has
    none. *)
Definition Set___init__ (value : PyVal) : M PyVal :=
  (fun self w => (Ok tt, set_type_attr None self, w)) ;;;
  let value := match py_iter value with Raise TypeError => PNone | _ => value end in
  if truthy value then Set_update [value] else ret PNone.

(** ** class Dict *)

Definition Dict_value : M PyVal := call "hgetall" [].

Definition Dict_update (value : PyVal) : M PyVal := call "hmset" [value] ;;; ret PNone.

Definition Dict_keys : M PyVal := call "hkeys" [].

(** [values] calls itself and does nothing else.  [Dict_values n] follows
    the calls [n] deep; [None] says that no call has returned by then. *)
Fixpoint Dict_values (fuel : nat) : Handle -> World -> option (Res PyVal * Handle * World) :=
  match fuel with
  | O => fun _ _ => None
  | S fuel' => fun self w => Dict_values fuel' self w
  end.

(** The same method as a relation between the state at the call and the
    state at the return: returning from [values] takes a return of the
    call in its body. *)
Inductive Dict_values_returns : Handle -> World -> Res PyVal * Handle * World -> Prop :=
  | values_calls_itself self w r :
      Dict_values_returns self w r -> Dict_values_returns self w r.

Definition Dict_items : M PyVal :=
  v <~ Dict_value ;;
  match v with
  | PDict d => ret (PList (map (fun kv => PTuple [fst kv; snd kv]) d))
  | _ => raise (AttributeError "items")
  end.

Definition Dict_setdefault (name value : PyVal) : M PyVal :=
  r <~ call "hsetnx" [name; value] ;;
  if py_eq r (PInt 1) then ret value else ret PNone.

Definition Dict_get (name default : PyVal) : M PyVal :=
  r <~ call "hget" [name] ;;
  ret (py_or r default).

Definition Dict___getitem__ (name : PyVal) : M PyVal :=
  value <~ Dict_get name PNone ;;
  match value with
  | PNone => raise KeyError
  | _ => ret PNone
  end.

Definition Dict___setitem__ (name value : PyVal) : M PyVal :=
  call "hset" [name] ;;; ret PNone.

Definition Dict___delitem__ (name : PyVal) : M PyVal :=
  call "hdel" [name] ;;; ret PNone.

(** [Dict(value, key)] with the key given. *)
Definition Dict___init__ (value : PyVal) : M PyVal :=
  let body (value : PyVal) : M PyVal :=
    if truthy value then Dict_update value else ret PNone in
  match value with
  | PDict _ => body value
  | _ =>
      match py_call_type TDict value with
      | Ok d => body d
      | Raise TypeError => body PNone
      | Raise e => raise e
      end
  end.

(** ** Comparing handles *)

(** The [value] property of the class of [self]. *)
Definition value : M PyVal :=
  self <~ get_self ;;
  match cls self with
  | CList => List_value
  | CSet => Set_value
  | CDict => Dict_value
  end.

Definition _to_value (v : Operand) : M Operand :=
  self <~ get_self ;;
  match v with
  | OHandle h =>
      if decide (cls h = cls self) then x <~ on h value ;; ret (OValue x)
      else ret v
  | OValue _ => ret v
  end.

(** [self.value == self._to_value(value)].  When [_to_value] hands back a
    handle of another class, the comparison ends in the [__eq__] of that
    handle, with the value of [self] as its argument. *)
Definition Iterable___eq__ (v : Operand) : M PyVal :=
  mine <~ value ;;
  theirs <~ _to_value v ;;
  match theirs with
  | OValue x => ret (PBool (py_eq mine x))
  | OHandle h => x <~ on h value ;; ret (PBool (py_eq x mine))
  end.

(** [self.value < self._to_value(value)] and the three methods like it.
    A plain value on the left does not know what to make of a handle of
    another class on the right, so Python asks that handle instead, with
    the operator mirrored and the value of [self] as the argument. *)
Definition ordered (op : Ordering) (v : Operand) : M PyVal :=
  mine <~ value ;;
  theirs <~ _to_value v ;;
  match theirs with
  | OValue x => b <~ lift (py_order op mine x) ;; ret (PBool b)
  | OHandle h =>
      x <~ on h value ;;
      b <~ lift (py_order (mirrored op) x mine) ;;
      ret (PBool b)
  end.

Definition Iterable___lt__ (v : Operand) : M PyVal := ordered op_lt v.
Definition Iterable___le__ (v : Operand) : M PyVal := ordered op_le v.
Definition Iterable___gt__ (v : Operand) : M PyVal := ordered op_gt v.
Definition Iterable___ge__ (v : Operand) : M PyVal := ordered op_ge v.

(** ** New lists from old ones *)

(** A number as [+] and [*] take it: a boolean counts as 0 or 1. *)
Definition as_int (v : PyVal) : option Z :=
  match v with
  | PInt z | PLong z => Some z
  | PBool b => Some (Z.b2z b)
  | _ => None
  end.

Definition is_long (v : PyVal) : bool :=
  match v with PLong _ => true | _ => false end.

(** The number [z] out of arithmetic on [a] and [b]: a [long] when one of
    the two is. *)
Definition py_number (a b : PyVal) (z : Z) : PyVal :=
  if is_long a || is_long b then PLong z else PInt z.

(** [a + b]: two sequences of one kind are joined, two numbers added. *)
Definition py_add (a b : PyVal) : Res PyVal :=
  match a, b with
  | PList x, PList y => Ok (PList (x ++ y))
  | PTuple x, PTuple y => Ok (PTuple (x ++ y))
  | PStr x, PStr y => Ok (PStr (x +:+ y))
  | _, _ =>
      match as_int a, as_int b with
      | Some x, Some y => Ok (py_number a b (x + y))
      | _, _ => Raise TypeError
      end
  end.

Fixpoint repeat_string (n : nat) (s : string) : string :=
  match n with
  | O => ""
  | S n' => s +:+ repeat_string n' s
  end.

(** A sequence of [size] elements [n] times over: the count has to fit a
    machine word, and so has the size of the result; [full] is what is
    raised when it does not.  No time at all for a negative count.
    Memory is taken to be there up to that size. *)
Definition repeated {A} (full : PyExc) (size : nat) (n : Z) (made : nat -> A) : Res A :=
  if negb (int64 n) then Raise OverflowError
  else if (maxint <? Z.of_nat size * Z.max n 0)%Z then Raise full
  else Ok (made (Z.to_nat n)).

(** [a * i]: a sequence times a number is the sequence that many times
    over; two numbers are multiplied. *)
Definition py_mul (a i : PyVal) : Res PyVal :=
  let list_times l n :=
    repeated MemoryError (length l) n (fun k => PList (concat (replicate k l))) in
  let tuple_times l n :=
    repeated MemoryError (length l) n (fun k => PTuple (concat (replicate k l))) in
  let str_times s n :=
    repeated OverflowError (String.length s) n (fun k => PStr (repeat_string k s)) in
  match a, as_int i with
  | PList x, Some n => list_times x n
  | PTuple x, Some n => tuple_times x n
  | PStr x, Some n => str_times x n
  | _, _ =>
      match as_int a, i with
      | Some x, (PInt y | PLong y) => Ok (py_number a i (x * y))
      | Some x, PBool y => Ok (py_number a i (x * Z.b2z y))
      | Some n, PList y => list_times y n
      | Some n, PTuple y => tuple_times y n
      | Some n, PStr y => str_times y n
      | _, _ => Raise TypeError
      end
  end.

(** [List(value)]: a new handle under a key of its own; [uuid] is what
    [str(uuid4())] gives.  [self] is not touched. *)
Definition List_new (value : PyVal) (uuid : string) : M Handle :=
  fun self w =>
    let '(r, new, w') := List___init__ value (Iterable___init__ CList uuid) w in
    (match r with Ok _ => Ok new | Raise e => Raise e end, self, w').

(** A list and a handle cannot be added: [list] does not know the
    handle, and the handle has no [__radd__]. *)
Definition List___add__ (l : Operand) (uuid : string) : M Handle :=
  mine <~ List_value ;;
  theirs <~ _to_value l ;;
  match theirs with
  | OValue v => total <~ lift (py_add mine v) ;; List_new total uuid
  | OHandle _ => raise TypeError
  end.

Definition List___mul__ (i : PyVal) (uuid : string) : M Handle :=
  mine <~ List_value ;;
  product <~ lift (py_mul mine i) ;;
  List_new product uuid.

(** ** Sequences of operations on one handle *)

(** The operations of the three classes on plain arguments, and
    [Attr name args] for a call of an attribute the class does not
    define, which goes to [__getattr__]. *)
Inductive Op : Type :=
  | List_getitem (i : Index)
  | List_len
  | List_setitem (i v : PyVal)
  | List_delitem (i : PyVal)
  | List_extend_op (l : PyVal)
  | List_append_op (v : PyVal)
  | List_insert_op (i v : PyVal)
  | List_pop_op (i : PyVal)
  | List_imul (i : PyVal)
  | List_reverse_op
  | List_index_op (v : PyVal)
  | List_count_op (v : PyVal)
  | Set_add_op (v : PyVal)
  | Set_update_op (values : list PyVal)
  | Set_pop_op
  | Set_clear_op
  | Set_remove_op (v : PyVal)
  | Set_discard_op (v : PyVal)
  | Set_len
  | Set_contains (v : PyVal)
  | Set_intersection_op (values : list PyVal)
  | Set_union_op (values : list PyVal)
  | Set_difference_op (values : list PyVal)
  | Set_intersection_update_op (values : list PyVal)
  | Set_difference_update_op (values : list PyVal)
  | Set_isdisjoint_op (v : PyVal)
  | Dict_update_op (v : PyVal)
  | Dict_keys_op
  | Dict_items_op
  | Dict_setdefault_op (name v : PyVal)
  | Dict_get_op (name default : PyVal)
  | Dict_getitem (name : PyVal)
  | Dict_setitem (name v : PyVal)
  | Dict_delitem (name : PyVal)
  | Value
  | Eq (v : Operand)
  | Attr (name : string) (args : list PyVal).

Definition run_op (o : Op) : M PyVal :=
  match o with
  | List_getitem i => List___getitem__ i
  | List_len => List___len__
  | List_setitem i v => List___setitem__ i v
  | List_delitem i => List___delitem__ i
  | List_extend_op l => List_extend l
  | List_append_op v => List_append v
  | List_insert_op i v => List_insert i v
  | List_pop_op i => List_pop i
  | List_imul i => List___imul__ i ;;; ret PNone
  | List_reverse_op => List_reverse
  | List_index_op v => List_index v
  | List_count_op v => List_count v
  | Set_add_op v => Set_add v
  | Set_update_op values => Set_update values
  | Set_pop_op => Set_pop
  | Set_clear_op => Set_clear
  | Set_remove_op v => Set_remove v
  | Set_discard_op v => Set_discard v
  | Set_len => Set___len__
  | Set_contains v => Set___contains__ v
  | Set_intersection_op values => Set_intersection values
  | Set_union_op values => Set_union values
  | Set_difference_op values => Set_difference values
  | Set_intersection_update_op values => Set_intersection_update values ;;; ret PNone
  | Set_difference_update_op values => Set_difference_update values ;;; ret PNone
  | Set_isdisjoint_op v => Set_isdisjoint v
  | Dict_update_op v => Dict_update v
  | Dict_keys_op => Dict_keys
  | Dict_items_op => Dict_items
  | Dict_setdefault_op name v => Dict_setdefault name v
  | Dict_get_op name default => Dict_get name default
  | Dict_getitem name => Dict___getitem__ name
  | Dict_setitem name v => Dict___setitem__ name v
  | Dict_delitem name => Dict___delitem__ name
  | Value => value
  | Eq v => Iterable___eq__ v
  | Attr name args => call name args
  end.

(** Runs the operations one after the other on the same handle, whether
    they return or raise, and lists the [type] attribute after each. *)
Fixpoint type_trace (ops : list Op) (self : Handle) (w : World) : list (option PyType) :=
  match ops with
  | [] => []
  | o :: r =>
      let '(_, self', w') := run_op o self w in
      type self' :: type_trace r self' w'
  end.

(** ** What the statements below speak of *)

(** Calling what [Base._proxy] finds. *)
Definition invoke (self : Handle) (name : string) (args : list PyVal) (w : World)
  : Res PyVal * World :=
  match Base__proxy self name w with
  | Ok func => func args w
  | Raise e => (Raise e, w)
  end.

(** The values [_check_type] compares with the element type on a handle
    of class [c], in the order it meets them. *)
Fixpoint leaves (c : Class) (value : PyVal) {struct value} : list PyVal :=
  match c, value with
  | CList, PList l | CSet, PSet l => flat_map (leaves c) l
  | CDict, PDict d => flat_map (fun kv => leaves c (fst kv)) d
  | _, _ => [value]
  end.

Definition differs (t : PyType) (x : PyVal) : bool :=
  negb (bool_decide (type_of x = t)).

(** A value is of a conflicting type when one of these is not of type [t]. *)
Definition conflicting (c : Class) (t : PyType) (value : PyVal) : bool :=
  existsb (differs t) (leaves c value).

(** The element type after a check that met the values [l]. *)
Definition adopted (before : option PyType) (l : list PyVal) : option PyType :=
  match before, l with
  | None, x :: _ => Some (type_of x)
  | _, _ => before
  end.

(** The values the loop of [_reduce] checks: the elements of the sets it
    makes of its arguments. *)
Definition reduce_leaves (values : list PyVal) : list PyVal :=
  flat_map (fun value => match py_set value with
                         | Ok s => leaves CSet s
                         | Raise _ => []
                         end) values.

(** What a check that meets the values [l] does to [self]. *)
Definition checked (l : list PyVal) (self : Handle) : Res unit * Handle :=
  (match adopted (type self) l with
   | Some t => if existsb (differs t) l then Raise TypeError else Ok tt
   | None => Ok tt
   end,
   set_type_attr (adopted (type self) l) self).

(** The key [k] holds the list [xs], the set [m], the hash [h], the way
    the server keeps them: a key with nothing in it is not there. *)
Definition holds_list (s : Store) (k : string) (xs : list string) : Prop :=
  s !! k = match xs with [] => None | _ => Some (RList xs) end.

Definition holds_set (s : Store) (k : string) (m : gset string) : Prop :=
  s !! k = if decide (m = ∅) then None else Some (RSet m).

Definition holds_hash (s : Store) (k : string) (h : gmap string string) : Prop :=
  s !! k = if decide (h = ∅) then None else Some (RHash h).

(** A value that is a Python set. *)
Definition is_plain_set (v : PyVal) : bool :=
  match v with PSet _ => true | _ => false end.

(** The operations that are methods of [Dict]. *)
Definition is_Dict_op (o : Op) : bool :=
  match o with
  | Dict_update_op _ | Dict_keys_op | Dict_items_op | Dict_setdefault_op _ _
  | Dict_get_op _ _ | Dict_getitem _ | Dict_setitem _ _ | Dict_delitem _ => true
  | _ => false
  end.

(** One step of the [type] attribute: it stays, or it goes from [None] to
    a type. *)
Inductive type_step : option PyType -> option PyType -> Prop :=
  | type_stays t : type_step t t
  | type_adopted t : type_step None (Some t).

Fixpoint type_chain (before : option PyType) (l : list (option PyType)) : Prop :=
  match l with
  | [] => True
  | t :: r => type_step before t /\ type_chain t r
  end.

(** [self] after a method is the same object, and its [type] attribute has
    stayed or has been adopted. *)
Definition same_handle (a b : Handle) : Prop :=
  cls b = cls a /\ key b = key a /\ type_step (type a) (type b).

Definition steady {A} (m : M A) : Prop :=
  forall h w, same_handle h (snd (fst (m h w))).

(** A method along which [self] is that same object, with its [type]
    attribute as well. *)
Definition fixes_self {A} (m : M A) : Prop :=
  forall h w, snd (fst (m h w)) = h.

(** ** Properties *)

(** *** Python equality *)

Lemma py_eq_refl (v : PyVal) : py_eq v v = true.
Proof.
  induction v using PyVal_nested_ind; simpl; try done.
  - by destruct b.
  - apply Z.eqb_refl.
  - apply Z.eqb_refl.
  - apply String.eqb_refl.
  - induction H as [|x r Hx _ IH]; [done|]. by rewrite Hx, IH.
  - induction H as [|x r Hx _ IH]; [done|]. by rewrite Hx, IH.
  - assert (Hin : forall x, In x l -> existsb (fun y => py_eq x y) l = true).
    { intros x Hx. apply existsb_exists. exists x. split; [done|].
      by apply (proj1 (List.Forall_forall _ _) H). }
    assert (Hin' : forall y, In y l -> existsb (fun x => py_eq x y) l = true).
    { intros y Hy. apply existsb_exists. exists y. split; [done|].
      by apply (proj1 (List.Forall_forall _ _) H). }
    apply andb_true_intro; split; apply forallb_forall; auto.
  - assert (Hin : forall kv, In kv d ->
        existsb (fun kw => py_eq (fst kv) (fst kw) && py_eq (snd kv) (snd kw)) d = true).
    { intros kv Hkv. apply existsb_exists. exists kv. split; [done|].
      destruct (proj1 (List.Forall_forall _ _) H kv Hkv) as [-> ->]. done. }
    assert (Hin' : forall kw, In kw d ->
        existsb (fun kv => py_eq (fst kv) (fst kw) && py_eq (snd kv) (snd kw)) d = true).
    { intros kw Hkw. apply existsb_exists. exists kw. split; [done|].
      destruct (proj1 (List.Forall_forall _ _) H kw Hkw) as [-> ->]. done. }
    apply andb_true_intro; split; apply forallb_forall; auto.
Qed.

(** *** The type check *)

Lemma checked_app a b self :
  match checked a self with
  | (Ok _, self') => checked b self'
  | (Raise e, self') => (Raise e, self')
  end = checked (a ++ b) self.
Proof.
  destruct self as [c k [t|]]; unfold checked; simpl.
  - rewrite existsb_app. by destruct (existsb (differs t) a).
  - destruct a as [|x a]; simpl; [done|].
    rewrite existsb_app.
    destruct (differs (type_of x) x); simpl; [done|].
    by destruct (existsb (differs (type_of x)) a).
Qed.

Lemma checked_cls l self : cls (snd (checked l self)) = cls self.
Proof. done. Qed.

Lemma check_each_checked {A} (f : A -> Handle -> Res unit * Handle)
    (g : A -> list PyVal) (c : Class) l :
  Forall (fun x => forall self, cls self = c -> f x self = checked (g x) self) l ->
  forall self, cls self = c -> check_each f l self = checked (flat_map g l) self.
Proof.
  induction 1 as [|x r Hx _ IH]; intros self Hc; simpl.
  - destruct self as [c' k [t|]]; done.
  - rewrite <- checked_app, Hx by done.
    destruct (checked (g x) self) as [[[]|e] self'] eqn:E; [|done].
    apply IH. by rewrite <- Hc, <- (checked_cls (g x) self), E.
Qed.

Ltac check_leaf self :=
  destruct self as [[] ? [?|]]; unfold checked, differs; simpl in *;
  try discriminate; try done;
  case_decide; simpl; try done; case_bool_decide; done.

Lemma _check_type_checked value self :
  _check_type value self = checked (leaves (cls self) value) self.
Proof.
  revert self. induction value using PyVal_nested_ind; intros self.
  all: try (check_leaf self).
  - destruct (cls self) eqn:Hc; [|check_leaf self..].
    simpl; rewrite Hc.
    apply check_each_checked with (c := CList); [|done].
    eapply Forall_impl; [exact H|]. intros x Hx s Hs. by rewrite Hx, Hs.
  - destruct (cls self) eqn:Hc; [check_leaf self| |check_leaf self].
    simpl; rewrite Hc.
    apply check_each_checked with (c := CSet); [|done].
    eapply Forall_impl; [exact H|]. intros x Hx s Hs. by rewrite Hx, Hs.
  - destruct (cls self) eqn:Hc; [check_leaf self..|].
    simpl; rewrite Hc.
    apply check_each_checked with (c := CDict) (g := fun kv => leaves CDict (fst kv)); [|done].
    eapply Forall_impl; [exact H|]. intros x [Hx _] s Hs. by rewrite Hx, Hs.
Qed.

(** *** The type attribute along a method *)

Lemma type_step_trans a b c : type_step a b -> type_step b c -> type_step a c.
Proof. intros [] Hbc; [done|]. inversion Hbc; subst. constructor. Qed.

Lemma same_handle_refl h : same_handle h h.
Proof. repeat split. constructor. Qed.

Lemma same_handle_trans a b c : same_handle a b -> same_handle b c -> same_handle a c.
Proof.
  intros (Hc & Hk & Ht) (Hc' & Hk' & Ht'). repeat split; [congruence..|].
  by eapply type_step_trans.
Qed.

Lemma steady_ret {A} (a : A) : steady (ret a).
Proof. intros h w. apply same_handle_refl. Qed.

Lemma steady_raise {A} e : steady (@raise A e).
Proof. intros h w. apply same_handle_refl. Qed.

Lemma steady_lift {A} (r : Res A) : steady (lift r).
Proof. intros h w. apply same_handle_refl. Qed.

Lemma steady_get_self : steady get_self.
Proof. intros h w. apply same_handle_refl. Qed.

Lemma steady_bind_from {A B} (m : M A) (k : A -> M B) :
  steady m ->
  (forall a h w h' w', m h w = (Ok a, h', w') -> steady (k a)) ->
  steady (bind m k).
Proof.
  intros Hm Hk h w. unfold bind. specialize (Hm h w).
  destruct (m h w) as [[[a|e] h'] w'] eqn:E; simpl in *; [|done].
  eapply same_handle_trans; [exact Hm|]. eapply Hk; eauto.
Qed.

Lemma steady_bind {A B} (m : M A) (k : A -> M B) :
  steady m -> (forall a, steady (k a)) -> steady (bind m k).
Proof. intros Hm Hk. apply steady_bind_from; auto. Qed.

Lemma steady_try_except {A} (m : M A) handles handler :
  steady m -> steady handler -> steady (try_except m handles handler).
Proof.
  intros Hm Hh h w. unfold try_except. specialize (Hm h w).
  destruct (m h w) as [[[a|e] h'] w']; simpl in *; [done|].
  destruct (handles e); [|done].
  eapply same_handle_trans; [exact Hm|]. apply Hh.
Qed.

Lemma steady_on {A} other (m : M A) : steady (on other m).
Proof.
  intros h w. unfold on. destruct (m other w) as [[r o'] w']. apply same_handle_refl.
Qed.

Lemma checked_same_handle l self : same_handle self (snd (checked l self)).
Proof.
  repeat split. destruct self as [c k [t|]]; simpl; [constructor|].
  destruct l; constructor.
Qed.

Lemma steady_check_type value : steady (check_type value).
Proof.
  intros h w. unfold check_type. rewrite _check_type_checked.
  pose proof (checked_same_handle (leaves (cls h) value) h) as H.
  by destruct (checked (leaves (cls h) value) h).
Qed.

Lemma Iterable__proxy_self name h w r h' w' :
  Iterable__proxy name h w = (r, h', w') -> h' = h /\ w' = w.
Proof.
  unfold Iterable__proxy. destruct (Base__proxy h name w); intros [= <- <- <-]; done.
Qed.

Lemma steady_wrapper name h w wrapper h' w' args :
  Iterable__proxy name h w = (Ok wrapper, h', w') -> steady (wrapper args).
Proof.
  unfold Iterable__proxy. destruct (Base__proxy h name w) as [func|]; [|done].
  intros [= <- <- <-] s u. destruct (func args u) as [[[]|] u']; apply same_handle_refl.
Qed.

Lemma steady_proxy name : steady (Iterable__proxy name).
Proof.
  intros h w. destruct (Iterable__proxy name h w) as [[r h'] w'] eqn:E.
  apply Iterable__proxy_self in E as [-> _]. apply same_handle_refl.
Qed.

Lemma steady_call name args : steady (call name args).
Proof.
  unfold call. apply steady_bind_from; [apply steady_proxy|].
  intros. by eapply steady_wrapper.
Qed.

Lemma steady_call_unpacked name l : steady (call_unpacked name l).
Proof.
  unfold call_unpacked. apply steady_bind_from; [apply steady_proxy|].
  intros. apply steady_bind; [apply steady_lift|]. intros. by eapply steady_wrapper.
Qed.

Lemma steady_reduce_loop values : steady (reduce_loop values).
Proof.
  induction values as [|v r IH]; simpl; [apply steady_ret|].
  repeat (apply steady_bind; [|intros]);
    auto using steady_lift, steady_check_type.
Qed.

Ltac steady :=
  repeat first
    [ apply steady_ret | apply steady_raise | apply steady_lift
    | apply steady_get_self | apply steady_check_type
    | apply steady_call | apply steady_call_unpacked | apply steady_on
    | apply steady_reduce_loop | apply steady_proxy
    | apply steady_try_except
    | apply steady_bind; [|intros]
    | match goal with
      | |- steady (match ?x with _ => _ end) => destruct x
      | |- steady (if ?x then _ else _) => destruct x
      end ].

Lemma steady_List___getitem__ i : steady (List___getitem__ i).
Proof.
  unfold List___getitem__. destruct i; [|steady].
  apply steady_bind_from; [steady|]. intros.
  apply steady_bind; [steady|]. intros. by eapply steady_wrapper.
Qed.

Lemma steady_Set_update values : steady (Set_update values).
Proof.
  unfold Set_update, Set__reduce. apply steady_bind_from; [steady|]. intros.
  steady. by eapply steady_wrapper.
Qed.

Lemma steady_value : steady value.
Proof.
  unfold value, List_value, Set_value, Dict_value.
  apply steady_bind; [steady|]. intros self.
  destruct (cls self); [apply steady_List___getitem__|steady..].
Qed.

Lemma steady_run_op o : steady (run_op o).
Proof.
  destruct o; simpl;
    unfold List___len__, List___setitem__, List___delitem__, List_append,
      List_extend, List_insert, List_pop, List___imul__, List_reverse,
      List_index, List_count, List_value, Set_add,
      Set_pop, Set_clear, Set_discard, Set_remove,
      Set___len__, Set___contains__, Set_isdisjoint, Set_intersection,
      Set_union, Set_difference, Set_intersection_update,
      Set_difference_update, Set__reduce, Set_value, Dict_update, Dict_keys, Dict_items,
      Dict_value, Dict___getitem__, Dict_setdefault, Dict_get,
      Dict___setitem__, Dict___delitem__, Iterable___eq__, _to_value;
    repeat first
      [ apply steady_List___getitem__ | apply steady_Set_update
      | apply steady_value | progress steady ].
Qed.

(** The [type] attribute along a sequence of operations. *)
Lemma type_trace_chain ops : forall self w,
  type_chain (type self) (type_trace ops self w).
Proof.
  induction ops as [|o r IH]; intros self w; simpl; [done|].
  pose proof (steady_run_op o self w) as (_ & _ & Hstep).
  destruct (run_op o self w) as [[res self'] w']. simpl in *. split; [done|apply IH].
Qed.

(** Once a type is adopted it is there after every later operation. *)
Lemma type_chain_adopted t l :
  type_chain (Some t) l -> Forall (fun x => x = Some t) l.
Proof.
  induction l as [|x r IH]; simpl; [constructor|].
  intros [Hx Hr]. inversion Hx; subst. constructor; auto.
Qed.

(** *** Dispatch *)

(** A command of the table above is an attribute of the client whatever
    the other attributes are. *)
Lemma redis_getattr_table name p :
  redis_prepare name = Some p ->
  redis_getattr name = Some {| prepare := p; execute := redis_execute name |}.
Proof. unfold redis_getattr. by intros ->. Qed.

(** A call through [__getattr__] on a handle whose reply needs no
    conversion, with no pipeline active. *)
Lemma call_direct name p args a self w :
  redis_prepare name = Some p ->
  p args = Ok a ->
  _pipeline w = None ->
  call name args self w =
    (match fst (redis_execute name (key self) a (store w)) with
     | Ok PNone => Ok PNone
     | Ok v => _set_type self v
     | Raise e => Raise e
     end, self, set_store (snd (redis_execute name (key self) a (store w))) w).
Proof.
  intros Hp Ha Hw. unfold call, bind, Iterable__proxy, Base__proxy.
  rewrite (redis_getattr_table _ _ Hp). unfold call_method, client. simpl.
  rewrite Ha, Hw. destruct (redis_execute name (key self) a (store w)) as [[[]|e] s']; done.
Qed.

Lemma set_store_same w : set_store (store w) w = w.
Proof. by destruct w. Qed.

(** *** Claims *)

(** C3, as the module has it.  Entering the [with pipeline()] block never
    raises: it makes a new, empty pipeline object and points [_pipeline]
    at it, whatever [_pipeline] held.  A pipeline that was active keeps
    its commands but is no longer the one [client()] answers, so at any
    time at most one pipeline receives the commands. *)
Theorem pipeline_enter_replaces (w : World) :
  let ref := length (pipelines w) in
  let w' := snd (pipeline_enter w) in
  fst (pipeline_enter w) = Ok tt /\
  _pipeline w' = Some ref /\
  client w' = Pipeline ref /\
  pipelines w' !! ref = Some [] /\
  take ref (pipelines w') = pipelines w /\
  store w' = store w.
Proof.
  simpl. repeat split.
  - by rewrite lookup_app_r, Nat.sub_diag.
  - by rewrite take_app_length.
Qed.

(** C5.  The [type] attribute of a handle is [None] when [__init__] has
    run; along any sequence of operations on the handle, whether they
    return or raise, every step leaves it as it was or takes it from
    [None] to a type; and on a handle that has a type, a check of a value
    with an element of another type raises [TypeError] and leaves the
    attribute alone. *)
Theorem type_tag_monotonic (c : Class) (k : string) (ops : list Op)
    (self : Handle) (w : World) (t : PyType) (value : PyVal) :
  type (Iterable___init__ c k) = None /\
  type_chain (type self) (type_trace ops self w) /\
  Forall (fun x => x = Some t) (type_trace ops (set_type_attr (Some t) self) w) /\
  check_type value (set_type_attr (Some t) self) w =
    (if conflicting (cls self) t value then Raise TypeError else Ok tt,
     set_type_attr (Some t) self, w).
Proof.
  split; [done|]. split; [apply type_trace_chain|]. split.
  - apply type_chain_adopted.
    apply (type_trace_chain ops (set_type_attr (Some t) self) w).
  - unfold check_type. by rewrite _check_type_checked.
Qed.

(** C6.  [_proxy] looks the name up on the client first: a method found
    there is called with the key of the handle in front of the arguments,
    on the connection when no pipeline is active and on the active
    pipeline, which queues it, otherwise.  A name the client does not
    have is looked up in [lua_funcs], and the script found is called with
    the key as its only key and the arguments as its arguments.  A name
    found in neither raises [AttributeError] with that name. *)
Theorem dispatch_order (self : Handle) (name : string) (args : list PyVal) (w : World) :
  (forall m a, redis_getattr name = Some m -> prepare m args = Ok a ->
     _pipeline w = None ->
     invoke self name args w =
       (fst (execute m (key self) a (store w)),
        set_store (snd (execute m (key self) a (store w))) w)) /\
  (forall m a ref, redis_getattr name = Some m -> prepare m args = Ok a ->
     _pipeline w = Some ref ->
     invoke self name args w =
       (Ok PPipeline,
        {| store := store w;
           pipelines := alter (fun q => q ++ [(name, key self, a)]) ref (pipelines w);
           _pipeline := Some ref |})) /\
  (forall f : Script, redis_getattr name = None -> lua_funcs !! name = Some f ->
     invoke self name args w =
       (fst (f [key self] (map py_str args) (store w)),
        set_store (snd (f [key self] (map py_str args) (store w))) w)) /\
  (redis_getattr name = None -> lua_funcs !! name = None ->
     invoke self name args w = (Raise (AttributeError name), w)).
Proof.
  unfold invoke, Base__proxy. repeat split.
  - intros m a -> Ha Hw. unfold call_method, client. rewrite Ha, Hw.
    by destruct (execute m (key self) a (store w)).
  - intros m a ref -> Ha Hw. unfold call_method, client. by rewrite Ha, Hw.
  - intros f Hn Hf. rewrite Hn, Hf. unfold call_script.
    by destruct (f [key self] (map py_str args) (store w)).
  - intros Hn Hf. by rewrite Hn, Hf.
Qed.


(** C10.  [values] only calls itself: however deep the calls are
    followed, none has returned. *)
Theorem Dict_values_never_returns (fuel : nat) (self : Handle) (w : World) :
  Dict_values fuel self w = None.
Proof. induction fuel as [|n IH]; [done|]. exact IH. Qed.

(** No return of [values] can be derived either. *)
Lemma Dict_values_no_return self w r : ~ Dict_values_returns self w r.
Proof. induction 1. done. Qed.

(** *** Writes and the type check *)

(** On a handle that has a type, the check changes nothing and raises
    exactly on a conflicting value. *)
Lemma set_type_attr_same self : set_type_attr (type self) self = self.
Proof. by destruct self. Qed.

Lemma check_type_tagged value self w t :
  type self = Some t ->
  check_type value self w =
    (if conflicting (cls self) t value then Raise TypeError else Ok tt, self, w).
Proof.
  intros Ht. unfold check_type. rewrite _check_type_checked.
  unfold checked, conflicting. rewrite Ht. simpl.
  by rewrite <- Ht, set_type_attr_same.
Qed.


Lemma fixes_self_call name args : fixes_self (call name args).
Proof.
  intros h w. unfold call, bind, Iterable__proxy.
  destruct (Base__proxy h name w) as [func|]; [|done].
  by destruct (func args w) as [[[]|] w'].
Qed.





(** Only the pipeline object is walked without end; what else cannot be
    walked raises [TypeError]. *)
Lemma py_iter_raises v e : py_iter v = Raise e -> v <> PPipeline -> e = TypeError.
Proof. destruct v; simpl; congruence. Qed.

Lemma py_set_raises v e : py_set v = Raise e -> v <> PPipeline -> e = TypeError.
Proof.
  unfold py_set. destruct (py_iter v) as [l|e'] eqn:E; simpl.
  - destruct (forallb hashable l); congruence.
  - intros [= <-]. by eapply py_iter_raises.
Qed.

Lemma py_set_iter v s : py_set v = Ok s -> exists l, py_iter v = Ok l.
Proof. unfold py_set. destruct (py_iter v); simpl; [eauto|done]. Qed.


Lemma checked_then a b self :
  fst (checked a self) = Ok tt ->
  snd (checked b (snd (checked a self))) = snd (checked (a ++ b) self).
Proof.
  intros H. rewrite <- checked_app.
  destruct (checked a self) as [[[]|] s]; [done|discriminate].
Qed.

Lemma reduce_loop_returns values : forall self w self' w',
  cls self = CSet ->
  reduce_loop values self w = (Ok tt, self', w') ->
  self' = snd (checked (reduce_leaves values) self) /\ w' = w.
Proof.
  induction values as [|v r IH]; intros self w self' w' Hc; simpl.
  { unfold ret. intros [= <- <-]. split; [|done]. by destruct self as [? ? []]. }
  unfold bind at 1, lift at 1. unfold reduce_leaves. simpl.
  destruct (py_set v) as [sv|e] eqn:Ev; [|done].
  unfold bind at 1, check_type. rewrite _check_type_checked, Hc.
  destruct (checked (leaves CSet sv) self) as [[[]|e] s1] eqn:E1; [|done].
  destruct (py_set_iter _ _ Ev) as [l El]. unfold bind at 1, lift. rewrite El.
  intros E. apply IH in E as [-> ->]; [|by rewrite <- Hc, <- (checked_cls (leaves CSet sv) self), E1].
  split; [|done].
  replace s1 with (snd (checked (leaves CSet sv) self)) by by rewrite E1.
  apply checked_then. by rewrite E1.
Qed.

Lemma proxy_table name p self w :
  redis_prepare name = Some p ->
  exists wrapper, Iterable__proxy name self w = (Ok wrapper, self, w)
                  /\ forall args, fixes_self (wrapper args).
Proof.
  intros Hp. unfold Iterable__proxy, Base__proxy. rewrite (redis_getattr_table _ _ Hp).
  eexists. split; [done|]. intros args h u. simpl.
  by destruct (call_method (client w) name _ (key self) args u) as [[[]|] ?].
Qed.


Lemma Set_update_adopts values self w r self' w' :
  cls self = CSet ->
  Set_update values self w = (Ok r, self', w') ->
  type self' = adopted (type self) (reduce_leaves values).
Proof.
  intros Hc. unfold Set_update, bind at 1.
  destruct (proxy_table "sadd" variadic self w eq_refl) as (wrapper & -> & Hw).
  unfold Set__reduce. unfold bind at 1 2.
  destruct (reduce_loop values self w) as [[[[]|e] s1] w1] eqn:E; [|done].
  apply reduce_loop_returns in E as [-> ->]; [|done].
  unfold lift at 1. destruct (py_reduce ior values) as [members|]; [|done].
  unfold bind at 1, lift. destruct (py_iter members) as [args|]; [|done].
  unfold bind. specialize (Hw args (snd (checked (reduce_leaves values) self)) w).
  destruct (wrapper args _ w) as [[[x|] s2] w2]; [|done].
  simpl in Hw. subst s2. unfold ret. by intros [= _ <- _].
Qed.


Lemma leaves_hashable value : hashable value = true -> leaves CSet value = [value].
Proof. by destruct value. Qed.

Lemma py_set_singleton value :
  py_set (PList [value]) = if hashable value then Ok (PSet [value]) else Raise TypeError.
Proof. unfold py_set. simpl. by destruct (hashable value). Qed.


Lemma Set_add_adopts value self w r self' w' :
  cls self = CSet ->
  Set_add value self w = (Ok r, self', w') ->
  type self' = adopted (type self) [value].
Proof.
  intros Hc E. destruct (hashable value) eqn:Hh.
  - apply Set_update_adopts in E; [|done]. rewrite E.
    unfold reduce_leaves. simpl. rewrite py_set_singleton, Hh. simpl.
    by rewrite (leaves_hashable _ Hh).
  - exfalso. revert E. unfold Set_add, Set_update, bind at 1.
    destruct (proxy_table "sadd" variadic self w eq_refl) as (wrapper & -> & _).
    unfold Set__reduce, bind. simpl. unfold bind, lift.
    by rewrite py_set_singleton, Hh.
Qed.





(** With a handle of the same class on the right, an ordering method
    reads the value of [self], then the value of the other handle, and
    hands the two to the operator. *)
Lemma ordered_same_class op (self other : Handle) (w w1 w2 : World) (v v' : PyVal) :
  cls other = cls self ->
  value self w = (Ok v, self, w1) ->
  value other w1 = (Ok v', other, w2) ->
  ordered op (OHandle other) self w
  = (match py_order op v v' with Ok b => Ok (PBool b) | Raise e => Raise e end, self, w2).
Proof.
  intros Hc H1 H2. unfold ordered, bind at 1. rewrite H1.
  unfold _to_value, bind at 1 2, get_self. rewrite decide_True by done.
  unfold bind at 1, on at 1. rewrite H2. unfold ret at 1.
  unfold bind, lift, ret. by destruct (py_order op v v').
Qed.

(** C8.  [__eq__] with a handle of the same class reads the value of
    [self], then the value of the other handle, and answers whether the
    two are equal; [__lt__], [__le__], [__gt__] and [__ge__] read the
    same two values in the same way and answer what [<], [<=], [>] and
    [>=] say of them, or raise what these raise.  The keys play no
    part.  When the two values are the same [__eq__] answers [True]. *)
Theorem eq_compares_values (self other : Handle) (w w1 w2 : World) (v v' : PyVal) :
  cls other = cls self ->
  value self w = (Ok v, self, w1) ->
  value other w1 = (Ok v', other, w2) ->
  Iterable___eq__ (OHandle other) self w = (Ok (PBool (py_eq v v')), self, w2) /\
  (v' = v -> Iterable___eq__ (OHandle other) self w = (Ok (PBool true), self, w2)) /\
  let answer op :=
    match py_order op v v' with Ok b => Ok (PBool b) | Raise e => Raise e end in
  Iterable___lt__ (OHandle other) self w = (answer op_lt, self, w2) /\
  Iterable___le__ (OHandle other) self w = (answer op_le, self, w2) /\
  Iterable___gt__ (OHandle other) self w = (answer op_gt, self, w2) /\
  Iterable___ge__ (OHandle other) self w = (answer op_ge, self, w2).
Proof.
  intros Hc H1 H2.
  assert (E : Iterable___eq__ (OHandle other) self w
              = (Ok (PBool (py_eq v v')), self, w2)).
  { unfold Iterable___eq__, bind at 1. rewrite H1.
    unfold _to_value, bind, get_self. rewrite decide_True by done.
    unfold on. by rewrite H2. }
  split; [exact E|]. split; [intros ->; by rewrite E, py_eq_refl|].
  repeat apply conj; by apply (ordered_same_class _ _ _ _ w1).
Qed.

(** *** Slices *)

(** With a start that is not negative and a stop above zero, the range
    [start .. stop - 1] the method asks for is the Python slice. *)
Lemma redis_lrange_slice (l : list string) (start stop : Z) :
  (0 <= start)%Z -> (0 < stop)%Z ->
  redis_lrange l start (stop - 1)
  = take (Z.to_nat (stop - start)) (drop (Z.to_nat start) l).
Proof.
  intros Hs Hp. unfold redis_lrange, from_end.
  rewrite (proj2 (Z.ltb_ge start 0)), (proj2 (Z.ltb_ge (stop - 1) 0)) by lia.
  rewrite Z.max_l by lia.
  destruct (Z.ltb_spec (stop - 1) start) as [H1|H1]; simpl.
  { replace (Z.to_nat (stop - start)) with 0%nat by lia. done. }
  destruct (Z.leb_spec (Z.of_nat (length l)) start) as [H2|H2].
  { rewrite drop_ge by lia. by rewrite take_nil. }
  destruct (Z.le_ge_cases (stop - 1) (Z.of_nat (length l) - 1)) as [H3|H3].
  - rewrite Z.min_l by lia. f_equal. lia.
  - rewrite Z.min_r by lia.
    rewrite !take_ge; [done| |]; rewrite length_drop; lia.
Qed.

(** With a stop of zero the range asked for ends at [-1], the last
    element: the reply is the list from [start] on. *)
Lemma redis_lrange_stop_zero (l : list string) (start : Z) :
  (0 <= start)%Z ->
  redis_lrange l start (-1) = drop (Z.to_nat start) l.
Proof.
  intros Hs. unfold redis_lrange, from_end.
  rewrite (proj2 (Z.ltb_ge start 0)) by lia.
  rewrite (proj2 (Z.ltb_lt (-1) 0)) by lia. rewrite Z.max_l by lia.
  destruct (Z.leb_spec (Z.of_nat (length l)) start) as [H2|H2].
  { rewrite orb_true_r. by rewrite drop_ge by lia. }
  rewrite (proj2 (Z.ltb_ge _ _)) by lia. simpl.
  rewrite Z.min_r by lia. rewrite take_ge; [done|]. rewrite length_drop. lia.
Qed.


(** *** Integers as the server keeps them *)

Lemma digit_of_pretty_N_char (n : N) :
  (n < 10)%N -> digit_of (pretty_N_char n) = Some (Z.of_N n).
Proof.
  intros H. destruct n as [|p]; [done|].
  do 4 (try (destruct p as [p|p|]; try reflexivity; try lia)).
Qed.

Lemma parse_digits_pretty_N_go (x : N) :
  exists k : nat, forall s acc,
    parse_digits acc (list_ascii_of_string (pretty_N_go x s))
    = parse_digits (acc * 10 ^ Z.of_nat k + Z.of_N x) (list_ascii_of_string s).
Proof.
  induction (N.lt_wf_0 x) as [x _ IH].
  destruct (decide (x = 0)%N) as [->|Hx].
  { exists 0%nat. intros s acc. rewrite pretty_N_go_0. f_equal. lia. }
  destruct (IH (x `div` 10)%N) as [k Hk]; [apply N.div_lt; lia|].
  exists (S k). intros s acc. rewrite pretty_N_go_step by lia.
  rewrite Hk. simpl. rewrite digit_of_pretty_N_char by (apply N.mod_lt; lia).
  f_equal. rewrite Nat2Z.inj_succ, Z.pow_succ_r by lia.
  pose proof (N.div_mod x 10 ltac:(lia)) as Hdm.
  rewrite N2Z.inj_mod. rewrite N2Z.inj_div.
  pose proof (Z.div_mod (Z.of_N x) 10 ltac:(lia)).
  change (Z.of_N 10) with 10%Z. lia.
Qed.

Lemma parse_digits_pretty_N (x : N) :
  parse_digits 0 (list_ascii_of_string (pretty_N_go x "")) = Some (Z.of_N x).
Proof.
  destruct (parse_digits_pretty_N_go x) as [k Hk]. rewrite Hk. simpl. f_equal; lia.
Qed.

Lemma digit_not_sign c d :
  digit_of c = Some d -> c <> "-"%char /\ c <> "+"%char /\ is_space c = false.
Proof.
  intros H.
  destruct c as [[] [] [] [] [] [] [] []]; vm_compute in H; try discriminate H;
    repeat split; (discriminate || reflexivity).
Qed.

Lemma parse_int_digits s c r z :
  list_ascii_of_string s = c :: r ->
  parse_digits 0 (c :: r) = Some z ->
  parse_int s = Some z.
Proof.
  intros E H. unfold parse_int. rewrite E.
  assert (exists d, digit_of c = Some d) as [d Hd].
  { simpl in H. destruct (digit_of c); [eauto|done]. }
  destruct (digit_not_sign _ _ Hd) as (Hm & Hp & _).
  destruct c as [[] [] [] [] [] [] [] []]; try done.
Qed.


Lemma parse_digits_all_digits l : forall acc z,
  parse_digits acc l = Some z -> Forall (fun c => is_space c = false) l.
Proof.
  induction l as [|c r IH]; intros acc z H; [constructor|].
  simpl in H. destruct (digit_of c) as [d|] eqn:Hd; [|done].
  constructor; [by destruct (digit_not_sign _ _ Hd) as (_ & _ & ?)|by eapply IH].
Qed.

Lemma pretty_pos_digits (p : positive) :
  parse_digits 0 (list_ascii_of_string (pretty (N.pos p))) = Some (Z.pos p).
Proof.
  unfold pretty, pretty_N. rewrite decide_False by done.
  by rewrite parse_digits_pretty_N.
Qed.

(** An integer printed in decimal reads back as itself. *)
Lemma parse_int_pretty (z : Z) : parse_int (pretty z) = Some z.
Proof.
  destruct z as [|p|p].
  - reflexivity.
  - pose proof (pretty_pos_digits p) as H.
    change (pretty (Z.pos p)) with (pretty (N.pos p)).
    destruct (list_ascii_of_string (pretty (N.pos p))) as [|c r] eqn:E; [done|].
    by eapply parse_int_digits.
  - pose proof (pretty_pos_digits p) as H.
    change (pretty (Z.neg p)) with ("-" +:+ pretty (N.pos p)).
    unfold parse_int.
    change (list_ascii_of_string ("-" +:+ pretty (N.pos p)))
      with ("-"%char :: list_ascii_of_string (pretty (N.pos p))).
    destruct (list_ascii_of_string (pretty (N.pos p))) as [|c r] eqn:E; [done|].
    cbn -[parse_digits]. by rewrite H.
Qed.

Lemma lstrip_no_space l : Forall (fun c => is_space c = false) l -> lstrip l = l.
Proof. intros [|c r Hc _]; [done|]. simpl. by rewrite Hc. Qed.

Lemma strip_no_space s :
  Forall (fun c => is_space c = false) (list_ascii_of_string s) -> strip s = s.
Proof.
  intros H. unfold strip. rewrite (lstrip_no_space _ H).
  rewrite lstrip_no_space by by apply Forall_rev.
  by rewrite rev_involutive, string_of_list_ascii_of_string.
Qed.

Lemma strip_pretty (z : Z) : strip (pretty z) = pretty z.
Proof.
  apply strip_no_space. destruct z as [|p|p].
  - repeat constructor.
  - change (pretty (Z.pos p)) with (pretty (N.pos p)).
    eapply parse_digits_all_digits, pretty_pos_digits.
  - change (pretty (Z.neg p)) with ("-" +:+ pretty (N.pos p)). simpl.
    constructor; [done|].
    eapply parse_digits_all_digits, pretty_pos_digits.
Qed.

(** What [int] makes of the text of an integer. *)
Lemma int_of_pretty (z : Z) : py_call_type TInt (PStr (pretty z)) = Ok (PInt z).
Proof. simpl. by rewrite strip_pretty, parse_int_pretty. Qed.

(** The server reads the text of an integer of 64 bits as that integer,
    and refuses the text of any other. *)
Lemma redis_int_pretty (z : Z) :
  redis_int (pretty z) = if int64 z then Some z else None.
Proof. unfold redis_int. by rewrite parse_int_pretty, String.eqb_refl. Qed.

Lemma int64_bounds (z : Z) : int64 z = true <-> (- 2 ^ 63 <= z < 2 ^ 63)%Z.
Proof.
  unfold int64, maxint. rewrite andb_true_iff, !Z.leb_le.
  change (2 ^ 63)%Z with 9223372036854775808%Z. lia.
Qed.


(** *** Calls on the connection *)

Lemma call_unpacked_direct name p l args a self w :
  redis_prepare name = Some p ->
  py_iter l = Ok args ->
  p args = Ok a ->
  _pipeline w = None ->
  call_unpacked name l self w =
    (match fst (redis_execute name (key self) a (store w)) with
     | Ok PNone => Ok PNone
     | Ok v => _set_type self v
     | Raise e => Raise e
     end, self, set_store (snd (redis_execute name (key self) a (store w))) w).
Proof.
  intros Hp Hl Ha Hw. unfold call_unpacked, bind, Iterable__proxy, Base__proxy, lift.
  rewrite (redis_getattr_table _ _ Hp), Hl. unfold call_method, client. simpl.
  rewrite Ha, Hw. destruct (redis_execute name (key self) a (store w)) as [[[]|e] s']; done.
Qed.

(** A reply that is no container of the class of the handle is passed to
    the element type, unless there is none or it is [str]. *)
Lemma _set_type_scalar self v :
  _is_many self v = false ->
  _set_type self v =
    match type self with
    | None | Some TStr => Ok v
    | Some t => py_call_type t v
    end.
Proof.
  unfold _is_many. intros H.
  destruct v, (cls self) eqn:Hc; try discriminate H; simpl; rewrite ?Hc;
    destruct (type self) as [[]|]; done.
Qed.

Ltac not_many :=
  unfold _is_many;
  match goal with
  | |- match cls ?h with _ => _ end = false => destruct (cls h); reflexivity
  end.

Lemma _set_type_list self l :
  cls self = CList ->
  _set_type self (PList l) =
    if decide (type self = Some TStr) then Ok (PList l)
    else res_bind (res_map (_set_type self) l) (fun typed_value => Ok (PList typed_value)).
Proof. intros Hc. simpl. by rewrite Hc. Qed.

Lemma res_map_ok {A B} (f : A -> Res B) (g : A -> B) l :
  Forall (fun x => f x = Ok (g x)) l -> res_map f l = Ok (map g l).
Proof. induction 1 as [|x r Hx _ IH]; simpl; [done|]. by rewrite Hx, IH. Qed.

(** Strings come back as they are on a handle without a type or of type
    [str]. *)
Lemma _set_type_strings self xs :
  cls self = CList ->
  type self = None \/ type self = Some TStr ->
  _set_type self (PList (map PStr xs)) = Ok (PList (map PStr xs)).
Proof.
  intros Hc Ht. rewrite _set_type_list by done.
  destruct Ht as [Ht|Ht]; rewrite Ht; [|done]. rewrite decide_False by done.
  rewrite (res_map_ok _ id); [by rewrite map_id|].
  apply Forall_forall. intros x Hx. apply list_elem_of_fmap in Hx as (y & -> & _).
  rewrite _set_type_scalar by (unfold _is_many; by rewrite Hc). by rewrite Ht.
Qed.

(** The text of integers comes back as the integers on a handle of type
    [int]. *)
Lemma _set_type_ints self zs :
  cls self = CList ->
  type self = Some TInt ->
  _set_type self (PList (map PStr (map pretty zs))) = Ok (PList (map PInt zs)).
Proof.
  intros Hc Ht. rewrite _set_type_list by done. rewrite Ht, decide_False by done.
  rewrite (res_map_ok _ (fun v => match v with
                                  | PStr s => PInt (default 0%Z (parse_int s))
                                  | _ => v
                                  end)).
  - simpl. f_equal. f_equal. rewrite !map_map. apply map_ext. intros z.
    by rewrite parse_int_pretty.
  - apply Forall_forall. intros x Hx. rewrite map_map in Hx.
    apply list_elem_of_fmap in Hx as (z & -> & _).
    rewrite _set_type_scalar by (unfold _is_many; by rewrite Hc). rewrite Ht.
    by rewrite int_of_pretty, parse_int_pretty.
Qed.

(** The slice read is the call of [lrange] with the stop lowered by one. *)
Lemma List_slice_call a b self w :
  List___getitem__ (Slice a b) self w =
    match py_sub1 (or_zero b) with
    | Ok stop1 => call "lrange" [or_zero a; stop1] self w
    | Raise e => (Raise e, self, w)
    end.
Proof.
  unfold List___getitem__, call, bind at 1.
  destruct (proxy_table "lrange" (fixed 2) self w eq_refl) as (wrapper & E & _).
  unfold bind at 2. rewrite E. unfold bind, lift.
  by destruct (py_sub1 (or_zero b)).
Qed.

Lemma exec_lrange k start stop s xs :
  get_list k s = Ok xs ->
  redis_execute "lrange" k [pretty start; pretty stop] s
  = if int64 start && int64 stop
    then (Ok (PList (map PStr (redis_lrange xs start stop))), s)
    else (Raise ResponseError, s).
Proof.
  intros H. cbv beta iota delta [redis_execute]. unfold with_list, with_int.
  rewrite H, !redis_int_pretty. by destruct (int64 start), (int64 stop).
Qed.

(** [l[:]] on the connection: the whole list the key holds. *)
Lemma List_value_direct self w xs :
  _pipeline w = None ->
  get_list (key self) (store w) = Ok xs ->
  List_value self w = (_set_type self (PList (map PStr xs)), self, w).
Proof.
  intros Hw Hx. unfold List_value. rewrite List_slice_call.
  change (py_sub1 (or_zero PNone)) with (Ok (PInt (-1))). cbv beta iota.
  rewrite (call_direct "lrange" (fixed 2) _ [pretty 0%Z; pretty (-1)%Z]) by done.
  rewrite (exec_lrange _ _ _ _ xs) by done.
  change (int64 0 && int64 (-1)) with true. cbv iota.
  rewrite (redis_lrange_stop_zero xs 0) by lia.
  cbn [fst snd]. change (Z.to_nat 0) with 0%nat. by rewrite drop_0, set_store_same.
Qed.


Lemma exec_rpush k a r s xs :
  get_list k s = Ok xs ->
  redis_execute "rpush" k (a :: r) s
  = (Ok (PInt (Z.of_nat (length (xs ++ a :: r)))), <[k := RList (xs ++ a :: r)]> s).
Proof.
  intros H. cbv beta iota delta [redis_execute]. unfold with_list. rewrite H.
  unfold put_list. by destruct xs.
Qed.

Lemma exec_llen k s xs :
  get_list k s = Ok xs ->
  redis_execute "llen" k [] s = (Ok (PInt (Z.of_nat (length xs))), s).
Proof.
  intros H. cbv beta iota delta [redis_execute]. unfold with_list. by rewrite H.
Qed.

Lemma get_list_insert k xs (s : Store) : get_list k (<[k := RList xs]> s) = Ok xs.
Proof. unfold get_list. by rewrite lookup_insert_eq. Qed.

Lemma leaves_scalars (f : Z -> PyVal) zs :
  (forall z, leaves CList (f z) = [f z]) ->
  leaves CList (PList (map f zs)) = map f zs.
Proof.
  intros Hf. simpl. induction zs as [|z r IH]; [done|]. simpl. by rewrite Hf, IH.
Qed.

Lemma differs_ints zs :
  Forall (fun z => int64 z = true) zs -> existsb (differs TInt) (map PInt zs) = false.
Proof.
  induction 1 as [|z r Hz _ IH]; [done|]. cbn [map existsb]. rewrite IH.
  unfold differs. cbn [type_of]. by rewrite Hz.
Qed.

(** X1.  Integers written with [extend] come back as the same integers:
    on a list handle without a type or of type [int], on the connection,
    whose key holds the text of the integers [olds], extending by the
    integers [zs], each of which fits a machine word and so is an [int],
    leaves the type [int] and the key holding [olds] and then [zs]; the
    value read back is that list of integers, and the length is the sum
    of the two lengths. *)
Theorem List_extend_ints_round_trip (self : Handle) (w : World) (olds zs : list Z) :
  cls self = CList ->
  type self = None \/ type self = Some TInt ->
  _pipeline w = None ->
  get_list (key self) (store w) = Ok (map pretty olds) ->
  zs <> [] ->
  Forall (fun z => int64 z = true) zs ->
  let self' := set_type_attr (Some TInt) self in
  let w' := set_store (<[key self := RList (map pretty (olds ++ zs))]> (store w)) w in
  List_extend (PList (map PInt zs)) self w = (Ok PNone, self', w') /\
  List_value self' w' = (Ok (PList (map PInt (olds ++ zs))), self', w') /\
  List___len__ self' w'
  = (Ok (PInt (Z.of_nat (length olds + length zs))), self', w').
Proof.
  intros Hc Ht Hw Hold Hz Hfit self' w'.
  assert (Hw' : _pipeline w' = None) by done.
  assert (Hnew : get_list (key self') (store w') = Ok (map pretty (olds ++ zs)))
    by apply get_list_insert.
  repeat apply conj.
  - unfold List_extend, bind at 1, check_type.
    rewrite _check_type_checked, Hc, (leaves_scalars PInt) by done.
    assert (checked (map PInt zs) self = (Ok tt, self')) as ->.
    { unfold checked. replace (adopted (type self) (map PInt zs)) with (Some TInt).
      - by rewrite differs_ints.
      - destruct Ht as [-> | ->]; [|done].
        destruct Hfit as [|z r Hz' _]; [done|]. cbn [map adopted type_of].
        by rewrite Hz'. }
    unfold bind.
    rewrite (call_unpacked_direct "rpush" variadic _ (map PInt zs) (map pretty zs))
      by (done || by (unfold variadic; rewrite map_map)).
    destruct zs as [|z zs']; [done|]. cbn [map].
    rewrite (exec_rpush _ _ _ _ (map pretty olds)) by done. cbn [fst snd].
    rewrite _set_type_scalar by not_many.
    unfold ret, w'. by rewrite map_app.
  - rewrite (List_value_direct _ _ _ Hw' Hnew). by rewrite _set_type_ints.
  - unfold List___len__. rewrite (call_direct "llen" (fixed 0) [] []) by done.
    rewrite (exec_llen _ _ _ Hnew). cbn [fst snd].
    rewrite _set_type_scalar by not_many.
    rewrite set_store_same. simpl. by rewrite length_map, length_app.
Qed.


(** *** Lists on the connection *)

Lemma holds_list_get s k xs : holds_list s k xs -> get_list k s = Ok xs.
Proof. unfold holds_list, get_list. intros ->. by destruct xs. Qed.

Lemma holds_list_put s k xs : holds_list s k xs -> put_list k xs s = s.
Proof.
  unfold holds_list, put_list. intros H.
  destruct xs; [by apply delete_id|by apply insert_id].
Qed.

Lemma put_list_holds s k xs : holds_list (put_list k xs s) k xs.
Proof.
  unfold holds_list, put_list.
  destruct xs; [apply lookup_delete_eq|apply lookup_insert_eq].
Qed.

Lemma differs_self x : differs (type_of x) x = false.
Proof. unfold differs. by rewrite bool_decide_eq_true_2. Qed.

(** X2.  A value whose elements are not all of one type is refused by
    [extend] on a handle without a type: [TypeError] is raised and
    nothing is sent, but the handle has taken the type of the first
    element all the same. *)
Theorem List_extend_mixed (self : Handle) (w : World) (value x : PyVal) (r : list PyVal) :
  type self = None ->
  leaves (cls self) value = x :: r ->
  existsb (differs (type_of x)) r = true ->
  List_extend value self w
  = (Raise TypeError, set_type_attr (Some (type_of x)) self, w).
Proof.
  intros Ht Hl Hr. unfold List_extend, bind, check_type.
  rewrite _check_type_checked, Hl. unfold checked. rewrite Ht. simpl.
  by rewrite differs_self, Hr.
Qed.

(** X3.  [append] of [None], a tuple, a set or a dict on a list handle
    without a type, on the connection: the text of the value is pushed,
    and then [TypeError] is raised, because the reply of the server, the
    new length, is passed to the type just adopted.  From then on [len]
    raises [TypeError] as well. *)
Theorem List_append_unconvertible (self : Handle) (w : World) (value : PyVal)
    (xs : list string) :
  cls self = CList ->
  type self = None ->
  _pipeline w = None ->
  get_list (key self) (store w) = Ok xs ->
  In (type_of value) [TNoneType; TTuple; TSet; TDict] ->
  let self' := set_type_attr (Some (type_of value)) self in
  let w' := set_store (<[key self := RList (xs ++ [py_str value])]> (store w)) w in
  List_append value self w = (Raise TypeError, self', w') /\
  List___len__ self' w' = (Raise TypeError, self', w').
Proof.
  intros Hc Ht Hw Hx Hv self' w'.
  assert (Hleaf : leaves CList value = [value]).
  { destruct value as [| |z| | | | | | |]; simpl in *; try destruct (int64 z);
      try reflexivity; exfalso; intuition discriminate. }
  assert (Hconv : forall n, py_call_type (type_of value) (PInt n) = Raise TypeError).
  { intros n. destruct value as [| |z| | | | | | |]; simpl in *; try destruct (int64 z);
      try reflexivity; exfalso; intuition discriminate. }
  split.
  - unfold List_append, List_extend, bind at 1, check_type.
    rewrite _check_type_checked, Hc. simpl. rewrite Hleaf. simpl.
    unfold checked. rewrite Ht. simpl. rewrite differs_self. unfold bind.
    rewrite (call_unpacked_direct "rpush" variadic _ [value] [py_str value]) by done.
    rewrite (exec_rpush _ _ _ _ xs) by done. cbn [fst snd].
    rewrite _set_type_scalar by not_many.
    cbn [type set_type_attr].
    rewrite Hconv. subst self' w'.
    destruct value as [| |z| | | | | | |]; simpl in *; try destruct (int64 z);
      solve [done | exfalso; intuition discriminate].
  - unfold List___len__. rewrite (call_direct "llen" (fixed 0) [] []) by done.
    rewrite (exec_llen _ _ (xs ++ [py_str value])) by apply get_list_insert.
    cbn [fst snd]. rewrite _set_type_scalar by not_many.
    cbn [type self' set_type_attr]. rewrite Hconv, set_store_same. subst self' w'.
    destruct value as [| |z| | | | | | |]; simpl in *; try destruct (int64 z);
      solve [done | exfalso; intuition discriminate].
Qed.


Lemma exec_lindex k i s xs :
  get_list k s = Ok xs ->
  redis_execute "lindex" k [pretty i] s
  = (if s !! k is Some _ then
       if int64 i then
         Ok (if (from_end (Z.of_nat (length xs)) i <? 0)%Z then PNone
             else nil_or_str (xs !! Z.to_nat (from_end (Z.of_nat (length xs)) i)))
       else Raise ResponseError
     else Ok PNone, s).
Proof.
  intros H. cbv beta iota delta [redis_execute]. unfold with_list, with_int.
  rewrite H, redis_int_pretty. destruct (s !! k); [|done]. by destruct (int64 i).
Qed.

Lemma exec_lset k i x s xs :
  get_list k s = Ok xs ->
  redis_execute "lset" k [pretty i; x] s
  = (let j := from_end (Z.of_nat (length xs)) i in
     if int64 i && ((0 <=? j)%Z && (j <? Z.of_nat (length xs))%Z)
     then (Ok (PBool true), put_list k (<[Z.to_nat j := x]> xs) s)
     else (Raise ResponseError, s)).
Proof.
  intros H. cbv beta iota delta [redis_execute]. unfold with_list, with_int.
  rewrite H, redis_int_pretty. by destruct (int64 i).
Qed.

Lemma exec_rpop k s xs :
  get_list k s = Ok xs ->
  redis_execute "rpop" k [] s
  = (Ok (nil_or_str (last xs)), put_list k (removelast xs) s).
Proof.
  intros H. cbv beta iota delta [redis_execute]. unfold with_list. by rewrite H.
Qed.

Lemma exec_lpop k s xs :
  get_list k s = Ok xs ->
  redis_execute "lpop" k [] s
  = (Ok (nil_or_str (head xs)), put_list k (tail xs) s).
Proof.
  intros H. cbv beta iota delta [redis_execute]. unfold with_list. by rewrite H.
Qed.

(** A Python index within the bounds, counted from the end when negative. *)
Lemma from_end_mod (n i : Z) :
  (- n <= i < n)%Z -> from_end n i = (i mod n)%Z /\ (0 <= i mod n < n)%Z.
Proof.
  intros H. unfold from_end. destruct (Z.ltb_spec i 0).
  - rewrite <- (Z_mod_plus_full i 1 n), Z.mul_1_l, Z.mod_small by lia. lia.
  - rewrite Z.mod_small by lia. lia.
Qed.

Lemma from_end_outside (n i : Z) :
  (i < - n \/ n <= i)%Z -> (0 <= n)%Z ->
  (from_end n i < 0 \/ n <= from_end n i)%Z.
Proof. unfold from_end. destruct (Z.ltb_spec i 0); lia. Qed.

Lemma _set_type_str_reply self x :
  type self = None \/ type self = Some TStr ->
  _set_type self (PStr x) = Ok (PStr x).
Proof.
  intros Ht. rewrite _set_type_scalar by not_many.
  by destruct Ht as [-> | ->].
Qed.

(** X4.  [l[i]] on a list of strings, on the connection.  For an index
    that fits 64 bits: from [-len] up to [len - 1] it gives the element
    at that place, counted from the end when negative, and any other
    index raises [IndexError].  An index that does not fit is refused by
    the server and its [ResponseError] comes through, unless the key
    holds nothing: then the server answers nil without a look at the
    index and [IndexError] is raised.  The server and the handle stay as
    they are. *)
Theorem List_getitem_index (self : Handle) (w : World) (xs : list string) (i : Z) :
  type self = None \/ type self = Some TStr ->
  _pipeline w = None ->
  get_list (key self) (store w) = Ok xs ->
  let n := Z.of_nat (length xs) in
  ((- n <= i < n)%Z -> int64 i = true ->
   List___getitem__ (Item (PInt i)) self w
   = (Ok (PStr (nth (Z.to_nat (i mod n)) xs "")), self, w)) /\
  ((i < - n \/ n <= i)%Z -> int64 i = true ->
   List___getitem__ (Item (PInt i)) self w = (Raise IndexError, self, w)) /\
  (int64 i = false ->
   List___getitem__ (Item (PInt i)) self w
   = (if store w !! key self is Some _ then Raise ResponseError else Raise IndexError,
      self, w)).
Proof.
  intros Ht Hw Hx n.
  assert (E : List___getitem__ (Item (PInt i)) self w
              = (item <~ lift (fst (redis_execute "lindex" (key self) [pretty i] (store w))) ;;
                 match item with
                 | PNone => raise IndexError
                 | PStr x => ret (PStr x)
                 | _ => raise ValueError
                 end) self w).
  { unfold List___getitem__, bind.
    rewrite (call_direct "lindex" (fixed 1) [PInt i] [pretty i]) by done.
    rewrite (exec_lindex _ _ _ _ Hx). cbn [fst snd]. rewrite set_store_same.
    unfold lift. destruct (store w !! key self); [|done].
    destruct (int64 i); [|done].
    destruct (from_end _ i <? 0)%Z; [done|].
    destruct (xs !! _) as [x|]; [|done]. cbn [nil_or_str].
    by rewrite _set_type_str_reply. }
  rewrite E, (exec_lindex _ _ _ _ Hx). unfold bind, lift. cbn [fst]. fold n.
  repeat apply conj.
  - intros Hi ->. destruct (from_end_mod n i Hi) as [-> Hm].
    destruct (store w !! key self) as [r|] eqn:Hk.
    2:{ unfold get_list in Hx. rewrite Hk in Hx. injection Hx as <-. simpl in *. lia. }
    rewrite (proj2 (Z.ltb_ge _ _)) by lia.
    rewrite (nth_lookup xs _ "").
    destruct (lookup_lt_is_Some_2 xs (Z.to_nat (i mod n)) ltac:(lia)) as [x ->].
    done.
  - intros Hi ->. destruct (store w !! key self); [|done].
    destruct (from_end_outside n i Hi ltac:(lia)) as [Hneg|Hbig].
    + by rewrite (proj2 (Z.ltb_lt _ _)) by lia.
    + rewrite (proj2 (Z.ltb_ge _ _)) by lia.
      by rewrite lookup_ge_None_2 by lia.
  - intros ->. by destruct (store w !! key self).
Qed.

(** X5.  [l[i] = v] with a string [v] on a list of strings, on the
    connection, the list being of a length that fits 64 bits as every
    list of the server is: within the bounds the element at that place
    is replaced and nothing else changes; outside them [IndexError] is
    raised and the server keeps what it had, also for an index the
    server cannot read.  Either way the handle is of type [str]
    afterwards. *)
Theorem List_setitem_index (self : Handle) (w : World) (xs : list string)
    (i : Z) (v : string) :
  cls self = CList ->
  type self = None \/ type self = Some TStr ->
  _pipeline w = None ->
  get_list (key self) (store w) = Ok xs ->
  let n := Z.of_nat (length xs) in
  let self' := set_type_attr (Some TStr) self in
  (n <= 2 ^ 63)%Z ->
  ((- n <= i < n)%Z ->
   List___setitem__ (PInt i) (PStr v) self w
   = (Ok PNone, self',
      set_store (<[key self := RList (<[Z.to_nat (i mod n) := v]> xs)]> (store w)) w)) /\
  ((i < - n \/ n <= i)%Z ->
   List___setitem__ (PInt i) (PStr v) self w = (Raise IndexError, self', w)).
Proof.
  intros Hc Ht Hw Hx n self' Hn.
  assert (Hcheck : check_type (PStr v) self w = (Ok tt, self', w)).
  { unfold check_type. rewrite _check_type_checked, Hc. unfold checked. simpl.
    destruct Ht as [-> | ->]; done. }
  split; intros Hi;
    unfold List___setitem__, bind at 1; rewrite Hcheck;
    unfold try_except, bind;
    rewrite (call_direct "lset" (fixed 2) [PInt i; PStr v] [pretty i; v]) by done;
    cbn [key self' set_type_attr]; rewrite (exec_lset _ _ _ _ _ Hx); fold n; cbv zeta.
  - destruct (from_end_mod n i Hi) as [-> Hm].
    rewrite (proj2 (int64_bounds i)) by lia.
    rewrite (proj2 (Z.leb_le _ _)), (proj2 (Z.ltb_lt _ _)) by lia.
    cbn [andb fst snd].
    rewrite _set_type_scalar by not_many.
    cbn [type]. unfold ret, put_list.
    destruct (<[Z.to_nat (i mod n):=v]> xs) eqn:E; [|done].
    apply (f_equal length) in E. rewrite length_insert in E. simpl in E. lia.
  - destruct (int64 i); cbn [andb fst snd]; [|by rewrite set_store_same].
    destruct (from_end_outside n i Hi ltac:(lia)) as [Hneg|Hbig].
    + rewrite (proj2 (Z.leb_gt _ _)) by lia. cbn [andb fst snd].
      by rewrite set_store_same.
    + rewrite (proj2 (Z.ltb_ge _ _)) by lia. rewrite andb_false_r. cbn [fst snd].
      by rewrite set_store_same.
Qed.

(** X6.  [pop()] and [pop(0)] on a list of strings, on the connection,
    give the last and the first element and take it off the list; on a
    key that holds nothing they give [None] and raise nothing. *)
Theorem List_pop_ends (self : Handle) (w : World) :
  type self = None \/ type self = Some TStr ->
  _pipeline w = None ->
  (forall i, In i [(-1)%Z; 0%Z] -> holds_list (store w) (key self) [] ->
     List_pop (PInt i) self w = (Ok PNone, self, w)) /\
  (forall ys x, get_list (key self) (store w) = Ok (ys ++ [x]) ->
     List_pop (PInt (-1)) self w
     = (Ok (PStr x), self, set_store (put_list (key self) ys (store w)) w)) /\
  (forall ys x, get_list (key self) (store w) = Ok (x :: ys) ->
     List_pop (PInt 0) self w
     = (Ok (PStr x), self, set_store (put_list (key self) ys (store w)) w)).
Proof.
  intros Ht Hw. repeat apply conj.
  - intros i Hi Hh. pose proof (holds_list_get _ _ _ Hh) as Hx.
    destruct Hi as [<-|[<-|[]]]; unfold List_pop; simpl.
    + rewrite (call_direct "rpop" (fixed 0) [] []) by done.
      rewrite (exec_rpop _ _ _ Hx). cbn [fst snd last removelast nil_or_str].
      change (removelast []) with (@nil string).
      by rewrite (holds_list_put _ _ _ Hh), set_store_same.
    + rewrite (call_direct "lpop" (fixed 0) [] []) by done.
      rewrite (exec_lpop _ _ _ Hx). cbn [fst snd head tail nil_or_str].
      by rewrite (holds_list_put _ _ _ Hh), set_store_same.
  - intros ys x Hx. unfold List_pop. simpl.
    rewrite (call_direct "rpop" (fixed 0) [] []) by done.
    rewrite (exec_rpop _ _ _ Hx). cbn [fst snd].
    rewrite last_snoc, removelast_last. cbn [nil_or_str].
    by rewrite _set_type_str_reply.
  - intros ys x Hx. unfold List_pop. simpl.
    rewrite (call_direct "lpop" (fixed 0) [] []) by done.
    rewrite (exec_lpop _ _ _ Hx). cbn [fst snd head tail nil_or_str].
    by rewrite _set_type_str_reply.
Qed.


(** *** Sets on the connection *)

Lemma holds_set_get s k m : holds_set s k m -> get_set k s = Ok m.
Proof. unfold holds_set, get_set. intros ->. by case_decide; subst. Qed.

Lemma holds_set_put s k m : holds_set s k m -> put_set k m s = s.
Proof.
  unfold holds_set, put_set. intros H.
  case_decide; [by apply delete_id|by apply insert_id].
Qed.

Lemma exec_sadd k a r s m :
  get_set k s = Ok m ->
  redis_execute "sadd" k (a :: r) s
  = (Ok (PInt (Z.of_nat (size (m ∪ list_to_set (a :: r)) - size m))),
     put_set k (m ∪ list_to_set (a :: r)) s).
Proof.
  intros H. cbv beta iota delta [redis_execute]. unfold with_set. by rewrite H.
Qed.

Lemma exec_srem k a r s m :
  get_set k s = Ok m ->
  redis_execute "srem" k (a :: r) s
  = (Ok (PInt (Z.of_nat (size m - size (m ∖ list_to_set (a :: r))))),
     put_set k (m ∖ list_to_set (a :: r)) s).
Proof.
  intros H. cbv beta iota delta [redis_execute]. unfold with_set. by rewrite H.
Qed.

Lemma exec_sismember k x s m :
  get_set k s = Ok m ->
  redis_execute "sismember" k [x] s = (Ok (PBool (bool_decide (x ∈ m))), s).
Proof.
  intros H. cbv beta iota delta [redis_execute]. unfold with_set. by rewrite H.
Qed.

Lemma exec_scard k s m :
  get_set k s = Ok m ->
  redis_execute "scard" k [] s = (Ok (PInt (Z.of_nat (size m))), s).
Proof.
  intros H. cbv beta iota delta [redis_execute]. unfold with_set. by rewrite H.
Qed.

(** The loop of [_reduce] sends nothing. *)
Lemma reduce_loop_world values : forall self w, snd (reduce_loop values self w) = w.
Proof.
  induction values as [|v r IH]; intros self w; [done|]. simpl.
  unfold bind at 1, lift at 1. destruct (py_set v) as [sv|]; [|done].
  unfold bind at 1, check_type. destruct (_check_type sv self) as [[[]|] s1]; [|done].
  unfold bind at 1, lift. destruct (py_iter v); [|done]. apply IH.
Qed.

Lemma reduce_loop_raises values : forall self w e self' w',
  ~ In PPipeline values ->
  reduce_loop values self w = (Raise e, self', w') -> e = TypeError.
Proof.
  induction values as [|v r IH]; intros self w e self' w' Hp; [done|]. simpl.
  assert (Hv : v <> PPipeline) by (intros ->; apply Hp; by left).
  unfold bind at 1, lift at 1. destruct (py_set v) as [sv|e1] eqn:E1.
  2:{ intros [= <- _ _]. by eapply py_set_raises. }
  unfold bind at 1, check_type. rewrite _check_type_checked.
  destruct (checked _ self) as [[[]|e2] s1] eqn:E2.
  2:{ intros [= <- _ _]. revert E2. unfold checked.
      destruct (adopted _ _); [|done]. by destruct (existsb _ _); intros [= <-]. }
  unfold bind at 1, lift. destruct (py_iter v) as [l|e3] eqn:E3.
  2:{ intros [= <- _ _]. by eapply py_iter_raises. }
  apply IH. intros H. apply Hp. by right.
Qed.

(** [update] on the connection, once [_reduce] has returned. *)
Lemma Set_update_direct values self w members self1 args :
  Set__reduce ior values self w = (Ok members, self1, w) ->
  py_iter members = Ok args ->
  _pipeline w = None ->
  Set_update values self w =
    (match fst (redis_execute "sadd" (key self) (map py_str args) (store w)) with
     | Ok PNone => Ok PNone
     | Ok v => res_bind (_set_type self1 v) (fun _ => Ok PNone)
     | Raise e => Raise e
     end, self1,
     set_store (snd (redis_execute "sadd" (key self) (map py_str args) (store w))) w).
Proof.
  intros Hr Hi Hw. unfold Set_update, bind, Iterable__proxy, Base__proxy.
  rewrite (redis_getattr_table "sadd" variadic eq_refl), Hr. unfold lift. rewrite Hi.
  unfold call_method, client. rewrite Hw. cbn [prepare execute]. unfold variadic.
  destruct (redis_execute "sadd" (key self) (map py_str args) (store w))
    as [[v|e] s']; cbn [fst snd]; [|done].
  destruct v; try done;
    match goal with |- context [_set_type self1 ?v] => by destruct (_set_type self1 v) end.
Qed.


Lemma list_to_set_one (x : string) : list_to_set [x] = ({[x]} : gset string).
Proof. simpl. apply union_empty_r_L. Qed.

Lemma add_member_elem (m : gset string) x : x ∈ m ∪ {[x]}.
Proof. apply elem_of_union_r. by apply elem_of_singleton. Qed.

Lemma add_member_nonempty (m : gset string) x : m ∪ {[x]} <> ∅.
Proof.
  intros H. apply (not_elem_of_empty (C := gset string) x).
  rewrite <- H. apply add_member_elem.
Qed.

Lemma add_member_twice (m : gset string) x : m ∪ {[x]} ∪ {[x]} = m ∪ {[x]}.
Proof. by rewrite <- (assoc_L (∪)), (idemp_L (∪)). Qed.

Lemma remove_absent (m : gset string) x : x ∉ m -> m ∖ {[x]} = m.
Proof. intros H. apply difference_disjoint_L. by apply disjoint_singleton_r. Qed.

Lemma member_size (m : gset string) x :
  x ∈ m -> size m - size (m ∖ {[x]}) = 1.
Proof.
  intros Hx. assert (Hs : ({[x]} : gset string) ⊆ m) by by apply singleton_subseteq_l.
  rewrite size_difference by done. rewrite size_singleton.
  apply subseteq_size in Hs. rewrite size_singleton in Hs. lia.
Qed.

Lemma Set_reduce_singleton self w x :
  cls self = CSet ->
  type self = None \/ type self = Some TStr ->
  Set__reduce ior [PList [PStr x]] self w
  = (Ok (PList [PStr x]), set_type_attr (Some TStr) self, w).
Proof.
  intros Hc Ht. unfold Set__reduce, bind, reduce_loop, bind, lift, check_type.
  rewrite py_set_singleton. cbn [hashable].
  rewrite _check_type_checked, Hc. unfold checked. simpl.
  by destruct Ht as [-> | ->].
Qed.

(** X7.  [add] of a string on a set of strings, on the connection, puts
    the string among the members and leaves the handle of type [str];
    after it [in] answers [True] for that string, and adding the same
    string once more changes nothing. *)
Theorem Set_add_member (self : Handle) (w : World) (m : gset string) (x : string) :
  cls self = CSet ->
  type self = None \/ type self = Some TStr ->
  _pipeline w = None ->
  get_set (key self) (store w) = Ok m ->
  let self' := set_type_attr (Some TStr) self in
  let w' := set_store (<[key self := RSet (m ∪ {[x]})]> (store w)) w in
  Set_add (PStr x) self w = (Ok PNone, self', w') /\
  Set___contains__ (PStr x) self' w' = (Ok (PBool true), self', w') /\
  Set___len__ self' w' = (Ok (PInt (Z.of_nat (size (m ∪ {[x]})))), self', w') /\
  Set_add (PStr x) self' w' = (Ok PNone, self', w').
Proof.
  intros Hc Ht Hw Hm self' w'.
  assert (Hadd : forall (h : Handle) (u : World) (n : gset string),
            cls h = CSet -> type h = None \/ type h = Some TStr ->
            _pipeline u = None -> get_set (key h) (store u) = Ok n ->
            Set_add (PStr x) h u
            = (Ok PNone, set_type_attr (Some TStr) h,
               set_store (<[key h := RSet (n ∪ {[x]})]> (store u)) u)).
  { intros h u n Hc' Ht' Hu Hn. unfold Set_add.
    rewrite (Set_update_direct _ _ _ _ _ [PStr x] (Set_reduce_singleton h u x Hc' Ht'))
      by done.
    cbn [map py_str]. rewrite (exec_sadd _ _ _ _ n) by done. cbn [fst snd].
    rewrite _set_type_scalar by not_many.
    cbn [type set_type_attr res_bind]. unfold put_set.
    rewrite list_to_set_one, decide_False by apply add_member_nonempty. done. }
  assert (Hm' : get_set (key self') (store w') = Ok (m ∪ {[x]})).
  { unfold get_set. cbn [key self' set_type_attr store w' set_store].
    by rewrite lookup_insert_eq. }
  repeat apply conj.
  - by apply Hadd.
  - unfold Set___contains__.
    rewrite (call_direct "sismember" (fixed 1) [PStr x] [x]) by done.
    rewrite (exec_sismember _ _ _ _ Hm'). cbn [fst snd].
    rewrite _set_type_scalar by not_many.
    rewrite set_store_same. cbn [type self' set_type_attr].
    by rewrite bool_decide_eq_true_2 by apply add_member_elem.
  - unfold Set___len__. rewrite (call_direct "scard" (fixed 0) [] []) by done.
    rewrite (exec_scard _ _ _ Hm'). cbn [fst snd].
    rewrite _set_type_scalar by not_many.
    by rewrite set_store_same.
  - rewrite (Hadd self' w' (m ∪ {[x]})) by (done || by right).
    f_equal. unfold w', set_store. cbn [store pipelines _pipeline key self' set_type_attr].
    f_equal. by rewrite add_member_twice, insert_insert_eq.
Qed.

(** X8.  [remove] and [discard] of a string on a set of strings, on
    the connection: a member is taken out by both; for a string that is
    no member [remove] raises [KeyError], [discard] returns, and the
    server keeps what it had. *)
Theorem Set_remove_discard (self : Handle) (w : World) (m : gset string) (x : string) :
  type self = Some TStr ->
  _pipeline w = None ->
  holds_set (store w) (key self) m ->
  (x ∈ m ->
   let w' := set_store (put_set (key self) (m ∖ {[x]}) (store w)) w in
   Set_remove (PStr x) self w = (Ok PNone, self, w') /\
   Set_discard (PStr x) self w = (Ok PNone, self, w')) /\
  (x ∉ m ->
   Set_remove (PStr x) self w = (Raise KeyError, self, w) /\
   Set_discard (PStr x) self w = (Ok PNone, self, w)).
Proof.
  intros Ht Hw Hh. pose proof (holds_set_get _ _ _ Hh) as Hm.
  assert (Hcheck : check_type (PStr x) self w = (Ok tt, self, w)).
  { rewrite (check_type_tagged _ _ _ TStr Ht).
    replace (conflicting (cls self) TStr (PStr x)) with false; [done|].
    by destruct (cls self). }
  assert (E : Set_remove (PStr x) self w
              = (if bool_decide (x ∈ m) then Ok PNone else Raise KeyError, self,
                 set_store (put_set (key self) (m ∖ {[x]}) (store w)) w)).
  { unfold Set_remove, bind at 1. rewrite Hcheck. unfold bind.
    rewrite (call_direct "srem" variadic [PStr x] [x]) by done.
    rewrite (exec_srem _ _ _ _ m) by done. cbn [fst snd].
    rewrite _set_type_scalar by not_many.
    rewrite Ht, list_to_set_one.
    case_bool_decide as Hx.
    - by rewrite member_size.
    - by rewrite remove_absent, Nat.sub_diag. }
  split; intros Hx.
  - rewrite bool_decide_eq_true_2 in E by done. split; [done|].
    unfold Set_discard, try_except. by rewrite E.
  - rewrite bool_decide_eq_false_2 in E by done.
    rewrite remove_absent in E by done.
    rewrite (holds_set_put _ _ _ Hh), set_store_same in E. split; [done|].
    unfold Set_discard, try_except. by rewrite E.
Qed.


(** *** [_reduce] and its operators *)

Lemma foldl_raised op e r :
  foldl (fun acc y => res_bind acc (fun a => apply_op op a y)) (Raise e) r = Raise e.
Proof. by induction r. Qed.

Lemma foldl_apply_op_other op r : forall a,
  (is_plain_set a = false /\ r <> []) \/ forallb is_plain_set r = false ->
  foldl (fun acc y => res_bind acc (fun a => apply_op op a y)) (Ok a) r
  = Raise TypeError.
Proof.
  induction r as [|y r IH]; intros a H.
  { destruct H as [[_ ?]|?]; done. }
  simpl. destruct a; try (simpl; apply foldl_raised).
  destruct y; try (simpl; apply foldl_raised).
  simpl. apply IH. right. destruct H as [[? _]|H]; [done|]. by simpl in H.
Qed.

Lemma py_reduce_other op values :
  (2 <= length values)%nat ->
  forallb is_plain_set values = false ->
  py_reduce op values = Raise TypeError.
Proof.
  intros Hl H. destruct values as [|x [|y r]]; [simpl in Hl; lia..|].
  unfold py_reduce. apply foldl_apply_op_other.
  destruct (is_plain_set x) eqn:Hx; [right|by left].
  cbn [forallb] in H. by rewrite Hx in H.
Qed.

Lemma Set__reduce_other op values self w :
  (2 <= length values)%nat ->
  forallb is_plain_set values = false ->
  ~ In PPipeline values ->
  fst (fst (Set__reduce op values self w)) = Raise TypeError /\
  snd (Set__reduce op values self w) = w.
Proof.
  intros Hl Hv Hp. unfold Set__reduce, bind.
  pose proof (reduce_loop_world values self w) as Hw.
  destruct (reduce_loop values self w) as [[[[]|e] s1] w1] eqn:E; simpl in Hw; subst w1.
  - unfold lift. by rewrite py_reduce_other.
  - apply reduce_loop_raises in E as ->; done.
Qed.

(** X9.  The operators [_reduce] folds with work on Python sets only
    among plain values.  Given two or more plain Python values, none of
    them a handle of this module or the pipeline object, of which one is
    not a set (a list, a tuple, a string, a number), [update],
    [intersection_update] and [difference_update] raise [TypeError] and
    nothing is sent or queued. *)
Theorem Set_update_needs_sets (self : Handle) (w : World) (values : list PyVal) :
  (2 <= length values)%nat ->
  forallb is_plain_set values = false ->
  ~ In PPipeline values ->
  (fst (fst (Set_update values self w)) = Raise TypeError /\
   snd (Set_update values self w) = w) /\
  (fst (fst (Set_intersection_update values self w)) = Raise TypeError /\
   snd (Set_intersection_update values self w) = w) /\
  (fst (fst (Set_difference_update values self w)) = Raise TypeError /\
   snd (Set_difference_update values self w) = w).
Proof.
  intros Hl Hv Hp. repeat apply conj.
  - unfold Set_update, bind at 1.
    destruct (proxy_table "sadd" variadic self w eq_refl) as (wrapper & -> & _).
    unfold bind at 1.
    destruct (Set__reduce_other ior values self w Hl Hv Hp) as [H1 H2].
    by destruct (Set__reduce ior values self w) as [[[] s1] w1]; simplify_eq/=.
  - unfold Set_update, bind at 1.
    destruct (proxy_table "sadd" variadic self w eq_refl) as (wrapper & -> & _).
    unfold bind at 1.
    destruct (Set__reduce_other ior values self w Hl Hv Hp) as [H1 H2].
    by destruct (Set__reduce ior values self w) as [[[] s1] w1]; simplify_eq/=.
  - destruct values as [|v r]; [simpl in Hl; lia|].
    unfold Set_intersection_update, bind at 1.
    destruct (Set__reduce_other iand (v :: r) self w Hl Hv Hp) as [H1 H2].
    by destruct (Set__reduce iand (v :: r) self w) as [[[] s1] w1]; simplify_eq/=.
  - destruct values as [|v r]; [simpl in Hl; lia|].
    unfold Set_intersection_update, bind at 1.
    destruct (Set__reduce_other iand (v :: r) self w Hl Hv Hp) as [H1 H2].
    by destruct (Set__reduce iand (v :: r) self w) as [[[] s1] w1]; simplify_eq/=.
  - destruct values as [|v r]; [simpl in Hl; lia|].
    unfold Set_difference_update, bind at 1.
    destruct (Set__reduce_other isub (v :: r) self w Hl Hv Hp) as [H1 H2].
    by destruct (Set__reduce isub (v :: r) self w) as [[[] s1] w1]; simplify_eq/=.
  - destruct values as [|v r]; [simpl in Hl; lia|].
    unfold Set_difference_update, bind at 1.
    destruct (Set__reduce_other isub (v :: r) self w Hl Hv Hp) as [H1 H2].
    by destruct (Set__reduce isub (v :: r) self w) as [[[] s1] w1]; simplify_eq/=.
Qed.


(** *** Dicts *)

Lemma holds_hash_get s k h : holds_hash s k h -> get_hash k s = Ok h.
Proof. unfold holds_hash, get_hash. intros ->. by case_decide; subst. Qed.

Lemma exec_hget k f s h :
  get_hash k s = Ok h ->
  redis_execute "hget" k [f] s = (Ok (nil_or_str (h !! f)), s).
Proof.
  intros H. cbv beta iota delta [redis_execute]. unfold with_hash. by rewrite H.
Qed.

Lemma exec_hsetnx k f x s h :
  get_hash k s = Ok h ->
  redis_execute "hsetnx" k [f; x] s
  = match h !! f with
    | Some _ => (Ok (PInt 0), s)
    | None => (Ok (PInt 1), <[k := RHash (<[f := x]> h)]> s)
    end.
Proof.
  intros H. cbv beta iota delta [redis_execute]. unfold with_hash. rewrite H.
  destruct (h !! f); [done|]. unfold put_hash.
  by rewrite decide_False by apply insert_non_empty.
Qed.

Lemma exec_hmset_one k f x s h :
  get_hash k s = Ok h ->
  redis_execute "hmset" k [f; x] s
  = (Ok (PBool true), <[k := RHash (<[f := x]> h)]> s).
Proof.
  intros H. cbv beta iota delta [redis_execute]. unfold with_hash. rewrite H.
  unfold put_hash, hash_put_all.
  by rewrite decide_False by apply insert_non_empty.
Qed.

Lemma exec_hdel_one k f s h :
  get_hash k s = Ok h ->
  snd (redis_execute "hdel" k [f] s) = put_hash k (delete f h) s
  /\ exists n, fst (redis_execute "hdel" k [f] s) = Ok (PInt n).
Proof.
  intros H. cbv beta iota delta [redis_execute]. unfold with_hash. rewrite H.
  cbn [fst snd remove_dups]. split; [|eauto].
  f_equal. destruct (decide_rel elem_of f []) as [Hin|_]; [by apply not_elem_of_nil in Hin|].
  rewrite filter_cons, filter_nil. case_decide as Hf; [done|].
  simpl. symmetry. apply delete_id. by apply eq_None_not_Some.
Qed.

Lemma get_hash_insert k h (s : Store) : get_hash k (<[k := RHash h]> s) = Ok h.
Proof. unfold get_hash. by rewrite lookup_insert_eq. Qed.

Lemma get_hash_put k h (s : Store) : get_hash k (put_hash k h s) = Ok h.
Proof.
  unfold get_hash, put_hash. case_decide; subst.
  - by rewrite lookup_delete_eq.
  - by rewrite lookup_insert_eq.
Qed.

(** [get] on the connection, on a handle without a type. *)
Lemma Dict_get_direct name default self w h :
  type self = None ->
  _pipeline w = None ->
  get_hash (key self) (store w) = Ok h ->
  Dict_get name default self w
  = (Ok (py_or (nil_or_str (h !! py_str name)) default), self, w).
Proof.
  intros Ht Hw Hh. unfold Dict_get, bind.
  rewrite (call_direct "hget" (fixed 1) [name] [py_str name]) by done.
  rewrite (exec_hget _ _ _ _ Hh). cbn [fst snd]. rewrite set_store_same.
  destruct (h !! py_str name) as [x|]; cbn [nil_or_str]; [|done].
  rewrite _set_type_str_reply by by left. done.
Qed.

(** X10.  [d[name] = value] writes nothing: the method hands [hset] the
    field name without the value, so the call raises [TypeError] whatever
    the handle, the arguments and the state, pipeline or not. *)
Theorem Dict_setitem_never_writes (self : Handle) (w : World) (name value : PyVal) :
  Dict___setitem__ name value self w = (Raise TypeError, self, w).
Proof.
  unfold Dict___setitem__, bind, call, bind, Iterable__proxy, Base__proxy.
  rewrite (redis_getattr_table "hset" (fixed 2) eq_refl).
  unfold call_method. by destruct (client w).
Qed.

(** X11.  [setdefault] on a dict handle, on the connection: for a field
    that is not there it stores the text of the value and returns the
    value; for a field that is there it changes nothing and returns
    [None], whatever the field holds. *)
Theorem Dict_setdefault_cases (self : Handle) (w : World)
    (h : gmap string string) (name value : PyVal) :
  type self = None ->
  _pipeline w = None ->
  get_hash (key self) (store w) = Ok h ->
  (h !! py_str name = None ->
   Dict_setdefault name value self w
   = (Ok value, self,
      set_store (<[key self := RHash (<[py_str name := py_str value]> h)]> (store w)) w)) /\
  (forall x, h !! py_str name = Some x ->
   Dict_setdefault name value self w = (Ok PNone, self, w)).
Proof.
  intros Ht Hw Hh.
  split; [intros Hf|intros x Hf]; unfold Dict_setdefault, bind;
    rewrite (call_direct "hsetnx" (fixed 2) [name; value] [py_str name; py_str value])
      by done;
    rewrite (exec_hsetnx _ _ _ _ _ Hh), Hf; cbn [fst snd];
    rewrite _set_type_scalar by not_many; rewrite Ht; cbn [py_eq Z.eqb Pos.eqb].
  - done.
  - by rewrite set_store_same.
Qed.

(** X12.  What [update] writes comes back from [get] as text: after
    [update({name: value})] on the connection, [get(name, default)]
    gives the text of [value], or [default] when that text is empty, and
    the other fields read as before.  A dict handle has no element type,
    so nothing is converted back. *)
Theorem Dict_update_get (self : Handle) (w : World) (h : gmap string string)
    (name value default other : PyVal) :
  type self = None ->
  _pipeline w = None ->
  get_hash (key self) (store w) = Ok h ->
  let w' := set_store (<[key self := RHash (<[py_str name := py_str value]> h)]> (store w)) w in
  Dict_update (PDict [(name, value)]) self w = (Ok PNone, self, w') /\
  Dict_get name default self w'
  = (Ok (if String.eqb (py_str value) "" then default else PStr (py_str value)), self, w') /\
  (py_str other <> py_str name ->
   Dict_get other default self w'
   = (Ok (py_or (nil_or_str (h !! py_str other)) default), self, w')).
Proof.
  intros Ht Hw Hh w'.
  assert (Hw' : _pipeline w' = None) by done.
  assert (Hh' : get_hash (key self) (store w')
                = Ok (<[py_str name := py_str value]> h)) by apply get_hash_insert.
  repeat apply conj.
  - unfold Dict_update, bind.
    rewrite (call_direct "hmset" hmset_prepare [PDict [(name, value)]]
               [py_str name; py_str value]) by done.
    rewrite (exec_hmset_one _ _ _ _ _ Hh). cbn [fst snd].
    by rewrite _set_type_scalar, Ht by not_many.
  - rewrite (Dict_get_direct _ _ _ _ _ Ht Hw' Hh'), lookup_insert_eq.
    unfold py_or, truthy, nil_or_str. by destruct (String.eqb (py_str value) "").
  - intros Hne. rewrite (Dict_get_direct _ _ _ _ _ Ht Hw' Hh').
    by rewrite lookup_insert_ne.
Qed.

(** X13.  [del d[name]] on the connection takes the field out of the
    hash and returns; it returns as well when the field is not there,
    and then the hash is as it was.  After it [get] gives the default
    for that field. *)
Theorem Dict_delitem_field (self : Handle) (w : World) (h : gmap string string)
    (name default : PyVal) :
  type self = None ->
  _pipeline w = None ->
  get_hash (key self) (store w) = Ok h ->
  let w' := set_store (put_hash (key self) (delete (py_str name) h) (store w)) w in
  Dict___delitem__ name self w = (Ok PNone, self, w') /\
  get_hash (key self) (store w') = Ok (delete (py_str name) h) /\
  Dict_get name default self w' = (Ok default, self, w').
Proof.
  intros Ht Hw Hh w'.
  assert (Hw' : _pipeline w' = None) by done.
  assert (Hh' : get_hash (key self) (store w') = Ok (delete (py_str name) h))
    by apply get_hash_put.
  repeat apply conj; [|done|].
  - unfold Dict___delitem__, bind.
    rewrite (call_direct "hdel" variadic [name] [py_str name]) by done.
    destruct (exec_hdel_one (key self) (py_str name) (store w) h Hh) as [-> [n ->]].
    by rewrite _set_type_scalar, Ht by not_many.
  - rewrite (Dict_get_direct _ _ _ _ _ Ht Hw' Hh'), lookup_delete_eq. done.
Qed.


Lemma exec_hgetall k s h :
  get_hash k s = Ok h ->
  redis_execute "hgetall" k [] s
  = (Ok (PDict (map (fun fx => (PStr (fst fx), PStr (snd fx))) (map_to_list h))), s).
Proof.
  intros H. cbv beta iota delta [redis_execute]. unfold with_hash. by rewrite H.
Qed.

Lemma length_chars f : length (chars f) = String.length f.
Proof.
  unfold chars. rewrite length_map. induction f as [|c f IH]; simpl; [done|].
  by rewrite IH.
Qed.

(** [dict] of a list of strings wants every string to be two characters
    long. *)
Lemma dict_of_pairs_strings (l : list string) : forall acc,
  Exists (fun f => String.length f <> 2) l ->
  dict_of_pairs acc (map PStr l) = Raise ValueError.
Proof.
  induction l as [|f r IH]; intros acc H; [by apply Exists_nil in H|].
  simpl. pose proof (length_chars f) as Hlen.
  destruct (chars f) as [|c1 [|c2 [|c3 cs]]] eqn:E; try done.
  assert (Hc1 : hashable c1 = true).
  { unfold chars in E. destruct (list_ascii_of_string f); simplify_eq/=. done. }
  rewrite Hc1. apply IH. apply Exists_cons in H as [H|H]; [|done].
  simpl in Hlen. congruence.
Qed.

Lemma _set_type_fields self (l : list (string * string)) :
  cls self = CDict ->
  type self = None ->
  _set_type self (PDict (map (fun fx => (PStr (fst fx), PStr (snd fx))) l))
  = dict_of_pairs [] (map PStr (map fst l)).
Proof.
  intros Hc Ht. simpl. rewrite Hc, Ht, decide_False by done.
  rewrite (res_map_ok _ (fun kv => fst kv)).
  - simpl. by rewrite !map_map.
  - apply Forall_forall. intros kv Hkv.
    apply list_elem_of_fmap in Hkv as (fx & -> & _). cbn [fst].
    by rewrite _set_type_str_reply by by left.
Qed.

(** X14.  The [value] of a dict handle, on the connection, is built by
    [dict] from the list of the field names alone: it is the empty dict
    for an empty hash, and raises [ValueError] as soon as one field name
    is not two characters long.  [items] goes the same way. *)
Theorem Dict_value_field_names (self : Handle) (w : World) (h : gmap string string) :
  cls self = CDict ->
  type self = None ->
  _pipeline w = None ->
  get_hash (key self) (store w) = Ok h ->
  (h = ∅ ->
   Dict_value self w = (Ok (PDict []), self, w) /\
   Dict_items self w = (Ok (PList []), self, w)) /\
  (forall f x, h !! f = Some x -> String.length f <> 2 ->
   Dict_value self w = (Raise ValueError, self, w) /\
   Dict_items self w = (Raise ValueError, self, w)).
Proof.
  intros Hc Ht Hw Hh.
  assert (E : Dict_value self w
              = (dict_of_pairs [] (map PStr (map fst (map_to_list h))), self, w)).
  { unfold Dict_value. rewrite (call_direct "hgetall" (fixed 0) [] []) by done.
    rewrite (exec_hgetall _ _ _ Hh). cbn [fst snd].
    by rewrite _set_type_fields, set_store_same. }
  split.
  - intros ->. rewrite map_to_list_empty in E. unfold Dict_items, bind.
    by rewrite E.
  - intros f x Hf Hlen.
    rewrite dict_of_pairs_strings in E.
    { unfold Dict_items, bind. by rewrite E. }
    apply Exists_exists. exists f. split; [|done].
    apply list_elem_of_fmap. exists (f, x). split; [done|].
    by apply elem_of_map_to_list.
Qed.

(** *** The end of a handle *)

Lemma exec_delete_key k (s : Store) :
  snd (redis_execute "delete" k [] s) = delete k s.
Proof.
  cbv beta iota delta [redis_execute]. cbn [snd remove_dups].
  destruct (decide_rel elem_of k []) as [Hin|_]; [by apply not_elem_of_nil in Hin|].
  rewrite filter_cons, filter_nil. case_decide as Hk; [done|].
  simpl. symmetry. apply delete_id. by apply eq_None_not_Some.
Qed.

Lemma call_direct_world name p args a self w :
  redis_prepare name = Some p -> p args = Ok a -> _pipeline w = None ->
  snd ((call name args ;;; ret PNone) self w)
  = set_store (snd (redis_execute name (key self) a (store w))) w.
Proof.
  intros Hp Ha Hw. unfold bind. rewrite (call_direct name p args a) by done.
  by destruct (match fst _ with Ok _ => _ | Raise _ => _ end).
Qed.

(** X15.  [__del__] and [Set.clear], on the connection, delete the key of
    the handle whatever it holds and leave every other key alone.  A
    list handle on the same key, this one or another one, reads the empty
    list afterwards. *)
Theorem Base_del_deletes (self other : Handle) (w : World) :
  _pipeline w = None ->
  let w' := set_store (delete (key self) (store w)) w in
  snd (Base___del__ self w) = w' /\
  snd (Set_clear self w) = w' /\
  (forall k, k <> key self -> store w' !! k = store w !! k) /\
  (cls other = CList -> key other = key self ->
   List_value other w' = (Ok (PList []), other, w')).
Proof.
  intros Hw w'. repeat apply conj.
  - unfold Base___del__.
    by rewrite (call_direct_world "delete" variadic [] []), exec_delete_key.
  - unfold Set_clear.
    by rewrite (call_direct_world "delete" variadic [] []), exec_delete_key.
  - intros k Hk. cbn [store w' set_store]. by rewrite lookup_delete_ne.
  - intros Hc Hk.
    rewrite (List_value_direct other w' []); [| done |].
    + rewrite _set_type_list by done. by case_decide.
    + unfold get_list. cbn [store w' set_store]. by rewrite Hk, lookup_delete_eq.
Qed.


(** *** Batches *)

Lemma insert_at_end {A} (l : list A) (x y : A) : <[length l := x]> (l ++ [y]) = l ++ [x].
Proof.
  rewrite <- (Nat.add_0_r (length l)) at 1. by rewrite (insert_app_r l [y] 0).
Qed.

Lemma alter_at_end {A} (f : A -> A) (l : list A) (y : A) :
  alter f (length l) (l ++ [y]) = l ++ [f y].
Proof.
  rewrite <- (Nat.add_0_r (length l)) at 1. by rewrite (alter_app_r f l [y] 0).
Qed.

(** X16.  One command sent inside a [with pipeline()] block, entered with
    no pipeline active: the call answers with the pipeline object and
    leaves the server alone; leaving the block leaves the server as the
    same call on the connection would have.  When the command succeeds
    the block ends with [_pipeline] back to [None]; when the server
    refuses it, leaving the block raises that error and [_pipeline] still
    refers to the pipeline, so the process stays in batch mode. *)
Theorem pipeline_runs_queued (self : Handle) (name : string) (args : list PyVal)
    (w : World) (m : Method) (a : list string) :
  redis_getattr name = Some m ->
  prepare m args = Ok a ->
  _pipeline w = None ->
  let w1 := snd (pipeline_enter w) in
  let w2 := snd (invoke self name args w1) in
  let direct := invoke self name args w in
  fst (invoke self name args w1) = Ok PPipeline /\
  store w2 = store w /\
  store (snd (pipeline_exit w2)) = store (snd direct) /\
  (forall v, fst direct = Ok v ->
     fst (pipeline_exit w2) = Ok tt /\ _pipeline (snd (pipeline_exit w2)) = None) /\
  (forall e, fst direct = Raise e ->
     fst (pipeline_exit w2) = Raise e /\
     _pipeline (snd (pipeline_exit w2)) = _pipeline w2).
Proof.
  intros Hm Ha Hw w1 w2 direct.
  assert (E1 : invoke self name args w1
               = (Ok PPipeline,
                  {| store := store w;
                     pipelines := pipelines w ++ [[(name, key self, a)]];
                     _pipeline := Some (length (pipelines w)) |})).
  { unfold invoke, Base__proxy. rewrite Hm. unfold call_method. rewrite Ha.
    cbn [client w1 pipeline_enter redis_pipeline snd _pipeline store pipelines].
    by rewrite alter_at_end. }
  assert (E2 : direct = (fst (execute m (key self) a (store w)),
                         set_store (snd (execute m (key self) a (store w))) w)).
  { unfold direct, invoke, Base__proxy. rewrite Hm. unfold call_method, client.
    rewrite Ha, Hw. by destruct (execute m (key self) a (store w)). }
  assert (E3 : pipeline_exit w2
               = match fst (execute m (key self) a (store w)) with
                 | Ok _ =>
                     (Ok tt,
                      {| store := snd (execute m (key self) a (store w));
                         pipelines := pipelines w ++ [[]];
                         _pipeline := None |})
                 | Raise e =>
                     (Raise e,
                      {| store := snd (execute m (key self) a (store w));
                         pipelines := pipelines w ++ [[]];
                         _pipeline := Some (length (pipelines w)) |})
                 end).
  { unfold w2. rewrite E1. unfold pipeline_exit, pipeline_execute.
    cbn [snd _pipeline store pipelines].
    rewrite lookup_app_r, Nat.sub_diag by done. cbn [lookup list_lookup default].
    unfold id. cbn [execute_all]. rewrite Hm.
    destruct (execute m (key self) a (store w)) as [[v|e] s1];
      cbn [fst snd res_bind store pipelines]; by rewrite insert_at_end. }
  assert (Hw2 : _pipeline w2 = Some (length (pipelines w)) /\ store w2 = store w)
    by (unfold w2; by rewrite E1).
  destruct Hw2 as [Hp2 Hs2]. rewrite E3, E2, E1, Hp2, Hs2. cbn [fst snd store].
  repeat apply conj; try done.
  - by destruct (fst (execute m (key self) a (store w))).
  - by intros v ->.
  - by intros e ->.
Qed.

(** X17.  Inside a batch a command answers with the pipeline object, and
    that answer goes through the element type like any other: on a
    handle of type [int], [long] or [NoneType], none of which can be made
    of the pipeline object, the call is queued and then raises
    [TypeError]; on a handle without a type or of type [str] it is
    queued and gives the pipeline object. *)
Theorem call_in_batch (self : Handle) (name : string) (args : list PyVal)
    (w : World) (p : list PyVal -> Res (list string)) (a : list string) (ref : nat) :
  redis_prepare name = Some p ->
  p args = Ok a ->
  _pipeline w = Some ref ->
  let queued :=
    {| store := store w;
       pipelines := alter (fun q => q ++ [(name, key self, a)]) ref (pipelines w);
       _pipeline := Some ref |} in
  (forall t, type self = Some t -> In t [TInt; TLong; TNoneType] ->
     call name args self w = (Raise TypeError, self, queued)) /\
  (type self = None \/ type self = Some TStr ->
     call name args self w = (Ok PPipeline, self, queued)).
Proof.
  intros Hp Ha Hw queued.
  assert (E : call name args self w = (_set_type self PPipeline, self, queued)).
  { unfold call, bind, Iterable__proxy, Base__proxy.
    rewrite (redis_getattr_table _ _ Hp). unfold call_method, client.
    cbn [prepare execute]. by rewrite Ha, Hw. }
  rewrite E, _set_type_scalar by not_many. split.
  - intros t -> [<-|[<-|[<-|[]]]]; done.
  - by intros [-> | ->].
Qed.

(** *** Dicts have no element type *)

Lemma fixes_self_bind {A B} (m : M A) (k : A -> M B) :
  fixes_self m -> (forall x, fixes_self (k x)) -> fixes_self (bind m k).
Proof.
  intros Hm Hk h w. unfold bind. specialize (Hm h w).
  destruct (m h w) as [[[x|e] h'] w']; simpl in Hm; subst; [apply Hk|done].
Qed.

Lemma fixes_self_ret {A} (x : A) : fixes_self (ret x).
Proof. by intros h w. Qed.

Lemma fixes_self_raise {A} e : fixes_self (@raise A e).
Proof. by intros h w. Qed.

Lemma fixes_self_Dict_op o : is_Dict_op o = true -> fixes_self (run_op o).
Proof.
  destruct o; try discriminate; intros _; simpl;
    unfold Dict_update, Dict_keys, Dict_items, Dict_value, Dict_setdefault,
      Dict___getitem__, Dict_get, Dict___setitem__, Dict___delitem__;
    repeat first
      [ apply fixes_self_call | apply fixes_self_ret | apply fixes_self_raise
      | apply fixes_self_bind; [|intros]
      | match goal with
        | |- fixes_self (match ?x with _ => _ end) => destruct x
        | |- fixes_self (if ?x then _ else _) => destruct x
        end ].
Qed.

(** X18.  No method of [Dict] touches the element type: after any
    sequence of dict operations, returning or raising, the handle is the
    one it was, and its [type] is what it was before, [None] for a handle
    fresh from [__init__]. *)
Theorem Dict_never_typed (ops : list Op) (self : Handle) (w : World) :
  forallb is_Dict_op ops = true ->
  Forall (fun t => t = type self) (type_trace ops self w).
Proof.
  revert self w. induction ops as [|o r IH]; intros self w H; [constructor|].
  simpl in H. apply andb_prop in H as [Ho Hr]. simpl.
  pose proof (fixes_self_Dict_op o Ho self w) as Hs.
  destruct (run_op o self w) as [[res self'] w']. simpl in Hs. subst self'.
  constructor; [done|by apply IH].
Qed.


(** *** Slices that are the Python ones *)

Lemma redis_lrange_negative_stop (l : list string) (start stop : Z) :
  (0 <= start)%Z -> (stop < 0)%Z ->
  redis_lrange l start (stop - 1)
  = take (Z.to_nat (Z.of_nat (length l) + stop - start)) (drop (Z.to_nat start) l).
Proof.
  intros Hs Hp. unfold redis_lrange, from_end.
  rewrite (proj2 (Z.ltb_ge start 0)), (proj2 (Z.ltb_lt (stop - 1) 0)) by lia.
  rewrite Z.max_l by lia.
  destruct (Z.ltb_spec (stop - 1 + Z.of_nat (length l)) start) as [H1|H1]; simpl.
  { replace (Z.to_nat (Z.of_nat (length l) + stop - start)) with 0%nat by lia. done. }
  destruct (Z.leb_spec (Z.of_nat (length l)) start) as [H2|H2]; [lia|].
  rewrite Z.min_l by lia. f_equal. lia.
Qed.

(** X19.  [l[start:stop]] on a list of strings, on the connection.  With
    a start that is not negative and a stop that is not 0, both such
    that [start] and [stop - 1] fit 64 bits, it is the Python slice: it
    runs up to [stop], or up to [len + stop] when [stop] is negative.
    When [start] or [stop - 1] does not fit 64 bits the server refuses
    the command and its [ResponseError] comes through.  Nothing changes
    on the server either way. *)
Theorem List_slice_python (self : Handle) (w : World) (xs : list string) (start stop : Z) :
  cls self = CList ->
  type self = None \/ type self = Some TStr ->
  _pipeline w = None ->
  get_list (key self) (store w) = Ok xs ->
  let n := Z.of_nat (length xs) in
  let e := if (stop <? 0)%Z then (n + stop)%Z else stop in
  ((0 <= start)%Z -> stop <> 0%Z -> int64 start = true -> int64 (stop - 1) = true ->
   List___getitem__ (Slice (PInt start) (PInt stop)) self w
   = (Ok (PList (map PStr (take (Z.to_nat (e - start)) (drop (Z.to_nat start) xs)))),
      self, w)) /\
  (int64 start = false \/ int64 (stop - 1) = false ->
   List___getitem__ (Slice (PInt start) (PInt stop)) self w
   = (Raise ResponseError, self, w)).
Proof.
  intros Hc Ht Hw Hx n e. rewrite List_slice_call.
  cbn [or_zero py_sub1].
  rewrite (call_direct "lrange" (fixed 2) _ [pretty start; pretty (stop - 1)%Z]) by done.
  rewrite (exec_lrange _ _ _ _ xs) by done. split.
  - intros Hs Hp -> ->. cbn [andb fst snd]. rewrite set_store_same.
    assert (redis_lrange xs start (stop - 1)
            = take (Z.to_nat (e - start)) (drop (Z.to_nat start) xs)) as ->.
    { unfold e, n. destruct (Z.ltb_spec stop 0).
      - by apply redis_lrange_negative_stop.
      - apply redis_lrange_slice; lia. }
    by rewrite _set_type_strings.
  - intros H. replace (int64 start && int64 (stop - 1)) with false.
    + cbn [fst snd]. by rewrite set_store_same.
    + destruct H as [-> | ->]; [done|by rewrite andb_false_r].
Qed.

(** *** Constructors *)

(** X20.  A constructor given a value that is false ([None], 0, an empty
    collection or string) or that cannot be iterated (a number) sends
    nothing and raises nothing: the handle starts on whatever its key
    holds.  [Set] sets the type back to [None] on the way. *)
Theorem init_without_value (self : Handle) (w : World) (value : PyVal) :
  truthy value = false \/ py_iter value = Raise TypeError ->
  List___init__ value self w = (Ok PNone, self, w) /\
  Set___init__ value self w = (Ok PNone, set_type_attr None self, w) /\
  Dict___init__ value self w = (Ok PNone, self, w).
Proof.
  intros H. repeat apply conj.
  - unfold List___init__. destruct H as [H|H].
    + destruct value; try done; simpl in *; by rewrite ?H.
    + destruct value; try done; by rewrite H.
  - unfold Set___init__, bind. destruct H as [H|H].
    + destruct value; try done; simpl in *; by rewrite ?H.
    + by rewrite H.
  - unfold Dict___init__. destruct H as [H|H].
    + by destruct value as [|[|]|z|z|[|? ?]|[|? ?]|[|? ?]|[|? ?]|[|? ?]|].
    + by destruct value.
Qed.


(** *** Set algebra with a plain set *)

Lemma _set_type_str self v : type self = Some TStr -> _set_type self v = Ok v.
Proof. intros Ht. destruct v; simpl; by rewrite Ht, decide_True. Qed.

Lemma exec_smembers k s m :
  get_set k s = Ok m ->
  redis_execute "smembers" k [] s = (Ok (PSet (map PStr (elements m))), s).
Proof.
  intros H. cbv beta iota delta [redis_execute]. unfold with_set. by rewrite H.
Qed.

Lemma Set_value_direct self w m :
  type self = Some TStr ->
  _pipeline w = None ->
  get_set (key self) (store w) = Ok m ->
  Set_value self w = (Ok (PSet (map PStr (elements m))), self, w).
Proof.
  intros Ht Hw Hm. unfold Set_value.
  rewrite (call_direct "smembers" (fixed 0) [] []) by done.
  rewrite (exec_smembers _ _ _ Hm). cbn [fst snd].
  by rewrite _set_type_str, set_store_same.
Qed.

Lemma dedupe_strings (l : list string) : forall seen,
  exists l', dedupe seen (map PStr l) = map PStr l'.
Proof.
  induction l as [|x r IH]; intros seen; [by exists []|].
  simpl. destruct (existsb _ seen).
  - apply IH.
  - destruct (IH (PStr x :: seen)) as [l' ->]. by exists (x :: l').
Qed.

Lemma checked_strings (l : list string) self :
  type self = Some TStr ->
  checked (flat_map (leaves CSet) (map PStr l)) self = (Ok tt, self).
Proof.
  intros Ht. unfold checked. rewrite Ht. cbn [adopted].
  replace (existsb (differs TStr) (flat_map (leaves CSet) (map PStr l))) with false.
  - by rewrite <- Ht, set_type_attr_same.
  - by induction l.
Qed.

Lemma reduce_loop_string_sets (sets : list (list string)) : forall self w,
  cls self = CSet ->
  type self = Some TStr ->
  reduce_loop (map (fun l => PSet (map PStr l)) sets) self w = (Ok tt, self, w).
Proof.
  induction sets as [|l r IH]; intros self w Hc Ht; [done|].
  cbn [map reduce_loop]. unfold bind at 1, lift at 1, py_set. cbn [py_iter res_bind].
  replace (forallb hashable (map PStr l)) with true by by induction l.
  destruct (dedupe_strings l []) as [l' ->].
  unfold bind at 1, check_type. rewrite _check_type_checked, Hc.
  cbn [leaves]. rewrite (checked_strings l' self Ht).
  unfold bind at 1, lift. by apply IH.
Qed.

Lemma existsb_py_eq_strings x ys :
  existsb (py_eq (PStr x)) (map PStr ys) = true <-> x ∈ ys.
Proof.
  rewrite existsb_exists. split.
  - intros (v & Hv & He). apply in_map_iff in Hv as (y & <- & Hy).
    apply String.eqb_eq in He as ->. by apply list_elem_of_In.
  - intros Hx. exists (PStr x). split.
    + apply in_map, list_elem_of_In, Hx.
    + apply String.eqb_refl.
Qed.

Lemma filter_common (l ys : list string) :
  filter (fun v => existsb (py_eq v) (map PStr ys) = true) (map PStr l)
  = map PStr (filter (fun x => x ∈ ys) l).
Proof.
  induction l as [|x r IH]; [done|]. cbn [map].
  rewrite !filter_cons, IH.
  destruct (decide (x ∈ ys)) as [Hx|Hx].
  - by rewrite decide_True by by apply existsb_py_eq_strings.
  - rewrite decide_False; [done|]. by rewrite existsb_py_eq_strings.
Qed.

Lemma filter_others (l ys : list string) :
  filter (fun v => existsb (py_eq v) (map PStr ys) = false) (map PStr l)
  = map PStr (filter (fun x => x ∉ ys) l).
Proof.
  induction l as [|x r IH]; [done|]. cbn [map].
  rewrite !filter_cons, IH.
  destruct (decide (x ∉ ys)) as [Hx|Hx].
  - rewrite decide_True; [done|].
    apply not_true_is_false. by rewrite existsb_py_eq_strings.
  - rewrite decide_False; [done|].
    rewrite not_false_iff_true, existsb_py_eq_strings. by apply dec_stable.
Qed.

(** X21.  [intersection] and [difference] with one plain Python set of
    strings, on a set of strings on the connection, give the members
    that are, or are not, in the plain set, and [isdisjoint] tells whether
    there is no common member; the server is only read. *)
Theorem Set_algebra_plain_set (self : Handle) (w : World) (m : gset string)
    (ys : list string) :
  cls self = CSet ->
  type self = Some TStr ->
  _pipeline w = None ->
  get_set (key self) (store w) = Ok m ->
  let common := filter (fun x => x ∈ ys) (elements m) in
  Set_intersection [PSet (map PStr ys)] self w
  = (Ok (PSet (map PStr common)), self, w) /\
  Set_difference [PSet (map PStr ys)] self w
  = (Ok (PSet (map PStr (filter (fun x => x ∉ ys) (elements m)))), self, w) /\
  Set_isdisjoint (PSet (map PStr ys)) self w
  = (Ok (PBool (bool_decide (common = []))), self, w).
Proof.
  intros Hc Ht Hw Hm common.
  assert (Hloop : reduce_loop [PSet (map PStr (elements m)); PSet (map PStr ys)] self w
                  = (Ok tt, self, w))
    by apply (reduce_loop_string_sets [elements m; ys] self w Hc Ht).
  assert (Hi : Set_intersection [PSet (map PStr ys)] self w
               = (Ok (PSet (map PStr common)), self, w)).
  { unfold Set_intersection, bind. rewrite (Set_value_direct _ _ _ Ht Hw Hm).
    unfold Set__reduce, bind. rewrite Hloop. unfold lift, py_reduce.
    cbn [foldl res_bind apply_op]. by rewrite filter_common. }
  repeat apply conj.
  - exact Hi.
  - unfold Set_difference, bind. rewrite (Set_value_direct _ _ _ Ht Hw Hm).
    unfold Set__reduce, bind. rewrite Hloop. unfold lift, py_reduce.
    cbn [foldl res_bind apply_op]. by rewrite filter_others.
  - unfold Set_isdisjoint, bind. rewrite Hi. unfold ret. do 3 f_equal.
    cbn [truthy]. rewrite length_map. by destruct common.
Qed.


(** *** Searching a list, naming the fields *)

Lemma index_of_strings x (pre post : list string) :
  x ∉ pre ->
  index_of (PStr x) (map PStr (pre ++ x :: post)) = Some (length pre).
Proof.
  induction pre as [|y pre IH]; intros Hx; simpl.
  - by rewrite String.eqb_refl.
  - apply not_elem_of_cons in Hx as [Hne Hx].
    rewrite (proj2 (String.eqb_neq y x)) by done. by rewrite IH.
Qed.

Lemma index_of_absent x (xs : list string) :
  x ∉ xs -> index_of (PStr x) (map PStr xs) = None.
Proof.
  induction xs as [|y xs IH]; intros Hx; simpl; [done|].
  apply not_elem_of_cons in Hx as [Hne Hx].
  rewrite (proj2 (String.eqb_neq y x)) by done. by rewrite IH.
Qed.

Lemma count_strings x (xs : list string) :
  length (filter (fun y => py_eq y (PStr x) = true) (map PStr xs))
  = length (filter (fun y => y = x) xs).
Proof.
  induction xs as [|y xs IH]; [done|]. cbn [map]. rewrite !filter_cons.
  destruct (decide (y = x)) as [->|Hne].
  - rewrite decide_True by apply String.eqb_refl. simpl. by rewrite IH.
  - rewrite decide_False; [done|]. simpl. by rewrite (proj2 (String.eqb_neq y x)).
Qed.

(** X22.  [index] and [count] on a list of strings, on the connection,
    read the whole list and search it: [index] gives the place of the
    first occurrence and raises [ValueError] when there is none, [count]
    gives the number of occurrences; the server is only read. *)
Theorem List_index_count (self : Handle) (w : World) (xs : list string) (x : string) :
  cls self = CList ->
  type self = None \/ type self = Some TStr ->
  _pipeline w = None ->
  get_list (key self) (store w) = Ok xs ->
  (forall pre post, xs = pre ++ x :: post -> x ∉ pre ->
     List_index (PStr x) self w = (Ok (PInt (Z.of_nat (length pre))), self, w)) /\
  (x ∉ xs -> List_index (PStr x) self w = (Raise ValueError, self, w)) /\
  List_count (PStr x) self w
  = (Ok (PInt (Z.of_nat (length (filter (fun y => y = x) xs)))), self, w).
Proof.
  intros Hc Ht Hw Hx.
  assert (Hv : List_value self w = (Ok (PList (map PStr xs)), self, w)).
  { rewrite (List_value_direct _ _ _ Hw Hx). by rewrite _set_type_strings. }
  repeat apply conj.
  - intros pre post -> Hpre. unfold List_index, bind. rewrite Hv.
    by rewrite index_of_strings.
  - intros Hout. unfold List_index, bind. rewrite Hv. by rewrite index_of_absent.
  - unfold List_count, bind. rewrite Hv. by rewrite count_strings.
Qed.

Lemma exec_hkeys k s h :
  get_hash k s = Ok h ->
  redis_execute "hkeys" k [] s
  = (Ok (PList (map (fun fx => PStr (fst fx)) (map_to_list h))), s).
Proof.
  intros H. cbv beta iota delta [redis_execute]. unfold with_hash. by rewrite H.
Qed.

(** X23.  [keys] on a dict handle, on the connection, gives a list in
    which a name occurs exactly when the hash has that field; the server
    is only read. *)
Theorem Dict_keys_fields (self : Handle) (w : World) (h : gmap string string) :
  cls self = CDict ->
  type self = None ->
  _pipeline w = None ->
  get_hash (key self) (store w) = Ok h ->
  exists names,
    Dict_keys self w = (Ok (PList (map PStr names)), self, w) /\
    NoDup names /\
    forall f, f ∈ names <-> is_Some (h !! f).
Proof.
  intros Hc Ht Hw Hh. exists (map fst (map_to_list h)). repeat apply conj.
  - unfold Dict_keys. rewrite (call_direct "hkeys" (fixed 0) [] []) by done.
    rewrite (exec_hkeys _ _ _ Hh). cbn [fst snd].
    rewrite _set_type_scalar by (unfold _is_many; by rewrite Hc).
    by rewrite Ht, set_store_same, map_map.
  - apply NoDup_fst_map_to_list.
  - intros f. rewrite list_elem_of_fmap. split.
    + intros ([f' x] & -> & Hfx). apply elem_of_map_to_list in Hfx. by exists x.
    + intros [x Hfx]. exists (f, x). split; [done|]. by apply elem_of_map_to_list.
Qed.


(** *** New lists from old ones *)

Lemma leaves_strings (xs : list string) :
  leaves CList (PList (map PStr xs)) = map PStr xs.
Proof. simpl. induction xs as [|x r IH]; [done|]. simpl. by rewrite IH. Qed.

Lemma differs_strings xs : existsb (differs TStr) (map PStr xs) = false.
Proof. by induction xs. Qed.

(** Strings written with [extend] on the connection go to the end of
    the list, and the type [str] is adopted. *)
Lemma List_extend_strings self w (old ys : list string) :
  cls self = CList ->
  type self = None \/ type self = Some TStr ->
  _pipeline w = None ->
  get_list (key self) (store w) = Ok old ->
  ys <> [] ->
  List_extend (PList (map PStr ys)) self w
  = (Ok PNone, set_type_attr (Some TStr) self,
     set_store (<[key self := RList (old ++ ys)]> (store w)) w).
Proof.
  intros Hc Ht Hw Hold Hy.
  unfold List_extend, bind at 1, check_type.
  rewrite _check_type_checked, Hc, leaves_strings.
  assert (checked (map PStr ys) self = (Ok tt, set_type_attr (Some TStr) self)) as ->.
  { unfold checked. replace (adopted (type self) (map PStr ys)) with (Some TStr).
    - by rewrite differs_strings.
    - destruct Ht as [-> | ->]; [|done]. by destruct ys. }
  unfold bind.
  rewrite (call_unpacked_direct "rpush" variadic _ (map PStr ys) ys)
    by (done || by (unfold variadic; rewrite map_map, map_id)).
  destruct ys as [|y ys']; [done|].
  rewrite (exec_rpush _ _ _ _ old) by done. cbn [fst snd].
  rewrite _set_type_scalar by not_many. by unfold ret.
Qed.

(** [List(value)] for a list of strings, under a key the server does not
    hold: nothing is sent for no strings. *)
Lemma List_new_strings (ys : list string) uuid self w :
  _pipeline w = None ->
  store w !! uuid = None ->
  List_new (PList (map PStr ys)) uuid self w
  = (Ok (if decide (ys = []) then Iterable___init__ CList uuid
         else set_type_attr (Some TStr) (Iterable___init__ CList uuid)),
     self,
     if decide (ys = []) then w else set_store (<[uuid := RList ys]> (store w)) w).
Proof.
  intros Hw Hu. unfold List_new, List___init__.
  destruct (decide (ys = [])) as [->|Hy]; [done|].
  replace (truthy (PList (map PStr ys))) with true by by destruct ys.
  rewrite (List_extend_strings _ _ [] ys); try done.
  - by left.
  - unfold get_list. simpl. by rewrite Hu.
Qed.

Lemma concat_replicate_nil {A} (n : nat) : concat (replicate n (@nil A)) = [].
Proof. by induction n. Qed.

Lemma concat_replicate_map {A B} (f : A -> B) (n : nat) (l : list A) :
  concat (replicate n (map f l)) = map f (concat (replicate n l)).
Proof. induction n as [|n IH]; [done|]. simpl. by rewrite IH, map_app. Qed.

(** What a key holds after a list was made under another key. *)
Lemma get_list_after_new (ys : list string) uuid k xs w :
  store w !! uuid = None ->
  get_list k (store w) = Ok xs ->
  (xs = [] -> ys = []) ->
  get_list k (store (if decide (ys = []) then w
                     else set_store (<[uuid := RList ys]> (store w)) w)) = Ok xs.
Proof.
  intros Hu Hx Hnil. destruct (decide (ys = [])) as [|Hy]; [done|].
  unfold get_list in *. simpl. destruct (decide (k = uuid)) as [->|Hne].
  - rewrite Hu in Hx. injection Hx as <-. by destruct Hy; apply Hnil.
  - by rewrite lookup_insert_ne.
Qed.

Lemma get_list_of_new (ys : list string) uuid w :
  store w !! uuid = None ->
  get_list uuid (store (if decide (ys = []) then w
                        else set_store (<[uuid := RList ys]> (store w)) w)) = Ok ys.
Proof.
  intros Hu. destruct (decide (ys = [])) as [->|Hy].
  - unfold get_list. by rewrite Hu.
  - apply get_list_insert.
Qed.

(** X24.  [l * n] on a list of strings, on the connection, with a new
    key the server does not hold yet.  For a count [n] that fits a
    machine word, and a result whose length fits one too, the result is
    a new list handle under that key whose value is the value of [l]
    repeated [n] times, the empty list for [n] below one; [l] and the
    list it holds are as they were, and so is every other key.  For a
    count that does not fit a machine word [OverflowError] is raised and
    nothing is written. *)
Theorem List_mul_copies (self : Handle) (w : World) (xs : list string)
    (n : Z) (uuid : string) :
  cls self = CList ->
  type self = None \/ type self = Some TStr ->
  _pipeline w = None ->
  get_list (key self) (store w) = Ok xs ->
  store w !! uuid = None ->
  let ys := concat (replicate (Z.to_nat n) xs) in
  (int64 n = true -> (Z.of_nat (length xs) * n <= maxint)%Z ->
   exists new w',
     List___mul__ (PInt n) uuid self w = (Ok new, self, w') /\
     cls new = CList /\ key new = uuid /\
     List_value new w' = (Ok (PList (map PStr ys)), new, w') /\
     List_value self w' = (Ok (PList (map PStr xs)), self, w') /\
     (forall k, k <> uuid -> store w' !! k = store w !! k)) /\
  (int64 n = false ->
   List___mul__ (PInt n) uuid self w = (Raise OverflowError, self, w)).
Proof.
  intros Hc Ht Hw Hx Hu ys.
  assert (E : List___mul__ (PInt n) uuid self w
              = (product <~ lift (py_mul (PList (map PStr xs)) (PInt n)) ;;
                 List_new product uuid) self w).
  { unfold List___mul__, bind at 1. rewrite (List_value_direct _ _ _ Hw Hx).
    by rewrite _set_type_strings. }
  rewrite E. unfold bind, lift. cbn [py_mul as_int]. unfold repeated.
  split.
  2:{ by intros ->. }
  intros -> Hsize. cbn [negb]. rewrite length_map.
  rewrite (proj2 (Z.ltb_ge _ _)) by (unfold maxint in *; nia).
  rewrite concat_replicate_map. fold ys. rewrite (List_new_strings ys) by done.
  eexists _, _. split; [done|]. split; [|split; [|split; [|split]]].
  - by destruct (decide (ys = [])).
  - by destruct (decide (ys = [])).
  - rewrite (List_value_direct _ _ ys).
    + rewrite _set_type_strings; [done|by destruct (decide (ys = []))|].
      destruct (decide (ys = [])); [by left|by right].
    + by destruct (decide (ys = [])).
    + replace (key _) with uuid by by destruct (decide (ys = [])).
      by apply get_list_of_new.
  - rewrite (List_value_direct _ _ xs).
    + by rewrite _set_type_strings.
    + by destruct (decide (ys = [])).
    + apply get_list_after_new; try done.
      intros ->. unfold ys. apply concat_replicate_nil.
  - intros k Hk. destruct (decide (ys = [])); [done|]. simpl.
    by rewrite lookup_insert_ne.
Qed.

(** X25.  [l + m] on a list of strings, on the connection, with a new
    key the server does not hold yet: for [m] a Python list of strings
    or a list handle that holds strings, the result is a new list handle
    under that key whose value is the value of [l] followed by that of
    [m], and [l], under a key of its own, reads as before; for [m] a set
    or dict handle, or a value that is no list, [TypeError] is raised
    and nothing is written. *)
Theorem List_add_joins (self other : Handle) (w : World) (xs zs : list string)
    (uuid : string) :
  cls self = CList ->
  type self = None \/ type self = Some TStr ->
  _pipeline w = None ->
  get_list (key self) (store w) = Ok xs ->
  store w !! uuid = None ->
  (exists new w',
     List___add__ (OValue (PList (map PStr zs))) uuid self w = (Ok new, self, w') /\
     (cls other = CList -> type other = None \/ type other = Some TStr ->
      get_list (key other) (store w) = Ok zs ->
      List___add__ (OHandle other) uuid self w = (Ok new, self, w')) /\
     cls new = CList /\ key new = uuid /\
     List_value new w' = (Ok (PList (map PStr (xs ++ zs))), new, w') /\
     (uuid <> key self -> List_value self w' = (Ok (PList (map PStr xs)), self, w')) /\
     (forall k, k <> uuid -> store w' !! k = store w !! k)) /\
  (cls other <> CList ->
   List___add__ (OHandle other) uuid self w = (Raise TypeError, self, w)) /\
  (forall v, (forall l, v <> PList l) ->
   List___add__ (OValue v) uuid self w = (Raise TypeError, self, w)).
Proof.
  intros Hc Ht Hw Hx Hu.
  assert (Hv : List_value self w = (Ok (PList (map PStr xs)), self, w)).
  { rewrite (List_value_direct _ _ _ Hw Hx). by rewrite _set_type_strings. }
  split; [|split].
  - set (ys := xs ++ zs).
    eexists _, _. split; [|split; [|split; [|split; [|split; [|split]]]]].
    + unfold List___add__, bind at 1. rewrite Hv.
      unfold _to_value, bind, get_self, ret, lift. cbn [py_add].
      rewrite <- map_app. fold ys. by rewrite (List_new_strings ys).
    + intros Hoc Hot Hoz. unfold List___add__, bind at 1. rewrite Hv.
      unfold _to_value, bind at 1, bind at 1, get_self.
      rewrite decide_True by congruence.
      unfold bind at 1, on, value, bind at 1, get_self. rewrite Hoc.
      rewrite (List_value_direct _ _ _ Hw Hoz), _set_type_strings by done.
      unfold bind, ret, lift. cbn [py_add].
      rewrite <- map_app. fold ys. by rewrite (List_new_strings ys).
    + by destruct (decide (ys = [])).
    + by destruct (decide (ys = [])).
    + rewrite (List_value_direct _ _ ys).
      * rewrite _set_type_strings; [done|by destruct (decide (ys = []))|].
        destruct (decide (ys = [])); [by left|by right].
      * by destruct (decide (ys = [])).
      * replace (key _) with uuid by by destruct (decide (ys = [])).
        by apply get_list_of_new.
    + intros Hk. rewrite (List_value_direct _ _ xs).
      * by rewrite _set_type_strings.
      * by destruct (decide (ys = [])).
      * destruct (decide (ys = [])); [done|]. unfold get_list in *. simpl.
        by rewrite lookup_insert_ne.
    + intros k Hk. destruct (decide (ys = [])); [done|]. simpl.
      by rewrite lookup_insert_ne.
  - intros Hoc. unfold List___add__, bind at 1. rewrite Hv.
    unfold _to_value, bind at 1, bind at 1, get_self.
    rewrite decide_False by congruence. by unfold ret, raise.
  - intros v Hv'. unfold List___add__, bind at 1. rewrite Hv.
    unfold _to_value, bind, get_self, ret, lift.
    destruct v; try done. by destruct (Hv' l).
Qed.

End HotRedis.

(** ** The statements at sample states *)

(** C1.  The first [setdefault("a", 5)] on a new dict writes the field
    and returns 5.  The second call, [setdefault("a", 9)], leaves the
    field alone and returns [None], not the 5 the field holds: the method
    has a [return] for the written case only. *)
Theorem Dict_setdefault_twice :
  let first := Dict_setdefault no_other ∅ (PStr "a") (PInt 5) a_dict empty_world in
  let second :=
    Dict_setdefault no_other ∅ (PStr "a") (PInt 9) (snd (fst first)) (snd first) in
  fst (fst first) = Ok (PInt 5) /\
  get_hash "d" (store (snd first)) = Ok {[ "a" := "5" ]} /\
  fst (fst second) = Ok PNone /\
  snd second = snd first.
Proof. vm_compute. repeat split. Qed.

(** C2.  A field holding the empty string reads like a field that is not
    there: [get] gives the default for both, and [d[name]] raises
    [KeyError] for both. *)
Theorem Dict_get_empty_string :
  let w := snd (Dict_update no_other ∅ (PDict [(PStr "a", PStr "")]) a_dict empty_world) in
  get_hash "d" (store w) = Ok {[ "a" := "" ]} /\
  fst (fst (Dict_get no_other ∅ (PStr "a") (PStr "x") a_dict w)) = Ok (PStr "x") /\
  fst (fst (Dict_get no_other ∅ (PStr "b") (PStr "x") a_dict w)) = Ok (PStr "x") /\
  fst (fst (Dict___getitem__ no_other ∅ (PStr "a") a_dict w)) = Raise KeyError /\
  fst (fst (Dict___getitem__ no_other ∅ (PStr "b") a_dict w)) = Raise KeyError.
Proof. vm_compute. repeat split. Qed.

(** C7.  On the list [1, 2, 3] the slice [l[0:0]] is the whole list: a
    stop of 0 is taken for a stop left out, and the range sent ends at
    [-1].  Slices with a stop above 0 are the Python ones. *)
Theorem List_slice_stop_zero :
  let after := List_extend no_other ∅ (PList [PInt 1; PInt 2; PInt 3]) a_list empty_world in
  let slice start stop :=
    fst (fst (List___getitem__ no_other ∅ (Slice (PInt start) (PInt stop))
                (snd (fst after)) (snd after))) in
  slice 0%Z 0%Z = Ok (PList [PInt 1; PInt 2; PInt 3]) /\
  slice 1%Z 0%Z = Ok (PList [PInt 2; PInt 3]) /\
  slice 1%Z 1%Z = Ok (PList []) /\
  slice 0%Z 2%Z = Ok (PList [PInt 1; PInt 2]).
Proof. vm_compute. repeat split. Qed.

(** C3 against the module: with a pipeline active and a command waiting
    in it, entering [pipeline()] once more returns, and the commands go
    to the new pipeline from then on. *)
Lemma pipeline_enter_while_active :
  let w1 := snd (pipeline_enter empty_world) in
  let w2 := snd (List_append no_other ∅ (PStr "x") a_list w1) in
  _pipeline w2 = Some 0%nat /\
  pipelines w2 = [[("rpush", "l", ["x"])]] /\
  fst (pipeline_enter w2) = Ok tt /\
  _pipeline (snd (pipeline_enter w2)) = Some 1%nat /\
  pipelines (snd (pipeline_enter w2)) = [[("rpush", "l", ["x"])]; []].
Proof. vm_compute. repeat split. Qed.

(** The check runs before the command is sent: an index write on an empty
    list raises [IndexError], and the handle has the type of the value
    all the same. *)
Lemma failed_write_adopts :
  List___setitem__ no_other ∅ (PInt 5) (PInt 1) a_list empty_world
  = (Raise IndexError, set_type_attr (Some TInt) a_list, empty_world).
Proof. vm_compute. reflexivity. Qed.

(** Leaving a [with pipeline()] block entered inside another one runs the
    inner pipeline and sets [_pipeline] to [None]; leaving the outer
    block then raises, and what the outer pipeline held is never run. *)
Lemma pipeline_nested_exit :
  let w1 := snd (pipeline_enter empty_world) in
  let w2 := snd (List_append no_other ∅ (PStr "x") a_list w1) in
  let w3 := snd (pipeline_enter w2) in
  let w4 := snd (pipeline_exit no_other w3) in
  fst (pipeline_exit no_other w3) = Ok tt /\
  _pipeline w4 = None /\
  store w4 = ∅ /\
  pipeline_exit no_other w4 = (Raise (AttributeError "execute"), w4).
Proof. vm_compute. repeat split. Qed.



(** [llen] goes to the connection, or to the pipeline when one is active;
    [list_reverse] is no method of the client and goes to the script;
    [shuffle] is neither. *)
Lemma dispatch_order_witness :
  let w := {| store := {[ "l" := RList ["a"; "b"] ]}; pipelines := []; _pipeline := None |} in
  let q := {| store := store w; pipelines := [[]]; _pipeline := Some 0%nat |} in
  invoke no_other sample_scripts a_list "llen" [] w = (Ok (PInt 2), w) /\
  invoke no_other sample_scripts a_list "llen" [] q
  = (Ok PPipeline,
     {| store := store w; pipelines := [[("llen", "l", [])]]; _pipeline := Some 0%nat |}) /\
  invoke no_other sample_scripts a_list "list_reverse" [] w
  = (Ok PNone,
     {| store := {[ "l" := RList ["b"; "a"] ]}; pipelines := []; _pipeline := None |}) /\
  invoke no_other sample_scripts a_list "shuffle" [] w
  = (Raise (AttributeError "shuffle"), w).
Proof.
  intros w q.
  destruct (dispatch_order no_other sample_scripts a_list "llen" [] w) as (H1 & _).
  destruct (dispatch_order no_other sample_scripts a_list "llen" [] q) as (_ & H2 & _).
  destruct (dispatch_order no_other sample_scripts a_list "list_reverse" [] w)
    as (_ & _ & H3 & _).
  destruct (dispatch_order no_other sample_scripts a_list "shuffle" [] w)
    as (_ & _ & _ & H4).
  repeat apply conj.
  - rewrite (H1 {| prepare := fixed 0; execute := redis_execute "llen" |} [])
      by reflexivity. vm_compute. reflexivity.
  - rewrite (H2 {| prepare := fixed 0; execute := redis_execute "llen" |} [] 0%nat)
      by reflexivity. reflexivity.
  - rewrite (H3 list_reverse_script) by reflexivity. vm_compute. reflexivity.
  - apply H4; reflexivity.
Defined.

(** Three lists under different keys, two holding ["1"] and one ["2"]:
    the two that hold the same are equal and neither is below the other,
    and both are below the third, whose key comes first. *)
Lemma eq_compares_values_witness :
  let w := {| store := {[ "l" := RList ["1"]; "m" := RList ["1"]; "a" := RList ["2"] ]};
              pipelines := []; _pipeline := None |} in
  let other := {| cls := CList; key := "m"; type := None |} in
  let third := {| cls := CList; key := "a"; type := None |} in
  key a_list <> key other /\
  value no_other ∅ a_list w = (Ok (PList [PStr "1"]), a_list, w) /\
  value no_other ∅ other w = (Ok (PList [PStr "1"]), other, w) /\
  value no_other ∅ third w = (Ok (PList [PStr "2"]), third, w) /\
  Iterable___eq__ no_other ∅ (OHandle other) a_list w = (Ok (PBool true), a_list, w) /\
  Iterable___lt__ no_other ∅ strings_order (OHandle other) a_list w
  = (Ok (PBool false), a_list, w) /\
  Iterable___le__ no_other ∅ strings_order (OHandle other) a_list w
  = (Ok (PBool true), a_list, w) /\
  Iterable___lt__ no_other ∅ strings_order (OHandle third) a_list w
  = (Ok (PBool true), a_list, w) /\
  Iterable___ge__ no_other ∅ strings_order (OHandle third) a_list w
  = (Ok (PBool false), a_list, w).
Proof.
  intros w other third.
  assert (H1 : value no_other ∅ a_list w = (Ok (PList [PStr "1"]), a_list, w))
    by (vm_compute; reflexivity).
  assert (H2 : value no_other ∅ other w = (Ok (PList [PStr "1"]), other, w))
    by (vm_compute; reflexivity).
  assert (H3 : value no_other ∅ third w = (Ok (PList [PStr "2"]), third, w))
    by (vm_compute; reflexivity).
  destruct (eq_compares_values no_other ∅ strings_order a_list other w w w
              (PList [PStr "1"]) (PList [PStr "1"]) eq_refl H1 H2)
    as (_ & Heq & Hlt & Hle & _).
  destruct (eq_compares_values no_other ∅ strings_order a_list third w w w
              (PList [PStr "1"]) (PList [PStr "2"]) eq_refl H1 H3)
    as (_ & _ & Hlt3 & _ & _ & Hge3).
  repeat apply conj;
    [discriminate | exact H1 | exact H2 | exact H3 | exact (Heq eq_refl)
    | exact Hlt | exact Hle | exact Hlt3 | exact Hge3].
Defined.


(** ** The further properties at sample states *)

Lemma List_extend_ints_round_trip_witness :
  List_extend no_other ∅ (PList [PInt 1; PInt (-2)]) a_list empty_world
  = (Ok PNone, int_list,
     set_store (<["l" := RList (map pretty ([] ++ [1; -2])%Z)]> ∅) empty_world) /\
  List_value no_other ∅ int_list
    (set_store (<["l" := RList (map pretty ([] ++ [1; -2])%Z)]> ∅) empty_world)
  = (Ok (PList [PInt 1; PInt (-2)]), int_list,
     set_store (<["l" := RList (map pretty ([] ++ [1; -2])%Z)]> ∅) empty_world).
Proof.
  destruct (List_extend_ints_round_trip no_other ∅ a_list empty_world [] [1; -2]%Z
              eq_refl (or_introl eq_refl) eq_refl eq_refl ltac:(discriminate)
              ltac:(repeat constructor))
    as (H1 & H2 & _).
  split; [exact H1|exact H2].
Defined.

Lemma List_extend_mixed_witness :
  List_extend no_other ∅ (PList [PInt 1; PStr "a"]) a_list empty_world
  = (Raise TypeError, int_list, empty_world).
Proof.
  exact (List_extend_mixed no_other ∅ a_list empty_world (PList [PInt 1; PStr "a"])
           (PInt 1) [PStr "a"] eq_refl eq_refl eq_refl).
Defined.

Lemma List_append_unconvertible_witness :
  let self' := set_type_attr (Some TNoneType) a_list in
  let w' := set_store (<["l" := RList ([] ++ ["None"])]> ∅) empty_world in
  List_append no_other ∅ PNone a_list empty_world = (Raise TypeError, self', w') /\
  List___len__ no_other ∅ self' w' = (Raise TypeError, self', w').
Proof.
  exact (List_append_unconvertible no_other ∅ a_list empty_world PNone []
           eq_refl eq_refl eq_refl eq_refl (or_introl eq_refl)).
Defined.

Lemma List_getitem_index_witness :
  List___getitem__ no_other ∅ (Item (PInt (-1))) a_list list_world
  = (Ok (PStr "c"), a_list, list_world) /\
  List___getitem__ no_other ∅ (Item (PInt 3)) a_list list_world
  = (Raise IndexError, a_list, list_world) /\
  List___getitem__ no_other ∅ (Item (PInt (2 ^ 63))) a_list list_world
  = (Raise ResponseError, a_list, list_world) /\
  List___getitem__ no_other ∅ (Item (PInt (2 ^ 63))) a_list empty_world
  = (Raise IndexError, a_list, empty_world).
Proof.
  destruct (List_getitem_index no_other ∅ a_list list_world ["a"; "b"; "c"] (-1)
              (or_introl eq_refl) eq_refl eq_refl) as (Hin & _).
  destruct (List_getitem_index no_other ∅ a_list list_world ["a"; "b"; "c"] 3
              (or_introl eq_refl) eq_refl eq_refl) as (_ & Hout & _).
  destruct (List_getitem_index no_other ∅ a_list list_world ["a"; "b"; "c"] (2 ^ 63)
              (or_introl eq_refl) eq_refl eq_refl) as (_ & _ & Hbig).
  destruct (List_getitem_index no_other ∅ a_list empty_world [] (2 ^ 63)
              (or_introl eq_refl) eq_refl eq_refl) as (_ & _ & Hnone).
  repeat apply conj.
  - apply Hin; [simpl; lia|reflexivity].
  - apply Hout; [simpl; lia|reflexivity].
  - apply Hbig. reflexivity.
  - apply Hnone. reflexivity.
Defined.

Lemma List_setitem_index_witness :
  List___setitem__ no_other ∅ (PInt 1) (PStr "z") a_list list_world
  = (Ok PNone, str_list,
     set_store (<["l" := RList ["a"; "z"; "c"]]> (store list_world)) list_world) /\
  List___setitem__ no_other ∅ (PInt 5) (PStr "z") a_list list_world
  = (Raise IndexError, str_list, list_world).
Proof.
  split.
  - apply (proj1 (List_setitem_index no_other ∅ a_list list_world ["a"; "b"; "c"] 1 "z"
                    eq_refl (or_introl eq_refl) eq_refl eq_refl ltac:(simpl; lia))).
    simpl. lia.
  - apply (proj2 (List_setitem_index no_other ∅ a_list list_world ["a"; "b"; "c"] 5 "z"
                    eq_refl (or_introl eq_refl) eq_refl eq_refl ltac:(simpl; lia))).
    simpl. lia.
Defined.

Lemma List_pop_ends_witness :
  List_pop no_other ∅ (PInt (-1)) a_list empty_world = (Ok PNone, a_list, empty_world) /\
  List_pop no_other ∅ (PInt (-1)) a_list list_world
  = (Ok (PStr "c"), a_list,
     set_store (put_list "l" ["a"; "b"] (store list_world)) list_world) /\
  List_pop no_other ∅ (PInt 0) a_list list_world
  = (Ok (PStr "a"), a_list,
     set_store (put_list "l" ["b"; "c"] (store list_world)) list_world).
Proof.
  repeat apply conj.
  - apply (proj1 (List_pop_ends no_other ∅ a_list empty_world
                    (or_introl eq_refl) eq_refl) (-1)%Z); [by left|reflexivity].
  - apply (proj1 (proj2 (List_pop_ends no_other ∅ a_list list_world
                           (or_introl eq_refl) eq_refl)) ["a"; "b"] "c").
    reflexivity.
  - apply (proj2 (proj2 (List_pop_ends no_other ∅ a_list list_world
                           (or_introl eq_refl) eq_refl)) ["b"; "c"] "a").
    reflexivity.
Defined.

Lemma Set_add_member_witness :
  let w' := set_store (<["s" := RSet (∅ ∪ {["a"]})]> ∅) empty_world in
  Set_add no_other ∅ (PStr "a") a_set empty_world = (Ok PNone, str_set, w') /\
  Set___contains__ no_other ∅ (PStr "a") str_set w' = (Ok (PBool true), str_set, w') /\
  Set_add no_other ∅ (PStr "a") str_set w' = (Ok PNone, str_set, w').
Proof.
  destruct (Set_add_member no_other ∅ a_set empty_world ∅ "a"
              eq_refl (or_introl eq_refl) eq_refl eq_refl) as (H1 & H2 & _ & H4).
  repeat apply conj; [exact H1|exact H2|exact H4].
Defined.

Lemma Set_remove_discard_witness :
  (Set_remove no_other ∅ (PStr "a") str_set set_world
   = (Ok PNone, str_set,
      set_store (put_set "s" ({["a"; "b"]} ∖ {["a"]}) (store set_world)) set_world)) /\
  Set_remove no_other ∅ (PStr "z") str_set set_world
  = (Raise KeyError, str_set, set_world) /\
  Set_discard no_other ∅ (PStr "z") str_set set_world = (Ok PNone, str_set, set_world).
Proof.
  destruct (Set_remove_discard no_other ∅ str_set set_world {["a"; "b"]} "a"
              eq_refl eq_refl ltac:(by vm_compute)) as (Hin & _).
  destruct (Set_remove_discard no_other ∅ str_set set_world {["a"; "b"]} "z"
              eq_refl eq_refl ltac:(by vm_compute)) as (_ & Hout).
  repeat apply conj.
  - apply Hin. by vm_compute.
  - apply Hout. by vm_compute.
  - apply Hout. by vm_compute.
Defined.

Lemma Set_update_needs_sets_witness :
  fst (fst (Set_update no_other ∅ [PList [PInt 1]; PList [PInt 2]] a_set empty_world))
  = Raise TypeError /\
  snd (Set_update no_other ∅ [PList [PInt 1]; PList [PInt 2]] a_set empty_world)
  = empty_world.
Proof.
  apply (Set_update_needs_sets no_other ∅ a_set empty_world
           [PList [PInt 1]; PList [PInt 2]]); [simpl; lia|reflexivity|].
  simpl. intuition discriminate.
Defined.

Lemma Dict_setdefault_cases_witness :
  Dict_setdefault no_other ∅ (PStr "b") (PInt 7) a_dict dict_world
  = (Ok (PInt 7), a_dict,
     set_store (<["d" := RHash (<["b" := "7"]> {["a" := "5"]})]> (store dict_world))
       dict_world) /\
  Dict_setdefault no_other ∅ (PStr "a") (PInt 7) a_dict dict_world
  = (Ok PNone, a_dict, dict_world).
Proof.
  split.
  - apply (proj1 (Dict_setdefault_cases no_other ∅ a_dict dict_world {["a" := "5"]}
                    (PStr "b") (PInt 7) eq_refl eq_refl eq_refl)).
    reflexivity.
  - apply (proj2 (Dict_setdefault_cases no_other ∅ a_dict dict_world {["a" := "5"]}
                    (PStr "a") (PInt 7) eq_refl eq_refl eq_refl) "5").
    reflexivity.
Defined.

Lemma Dict_update_get_witness :
  let w' := set_store (<["d" := RHash (<["a" := "5"]> ∅)]> ∅) empty_world in
  Dict_update no_other ∅ (PDict [(PStr "a", PInt 5)]) a_dict empty_world
  = (Ok PNone, a_dict, w') /\
  Dict_get no_other ∅ (PStr "a") (PStr "x") a_dict w' = (Ok (PStr "5"), a_dict, w') /\
  Dict_get no_other ∅ (PStr "b") (PStr "x") a_dict w' = (Ok (PStr "x"), a_dict, w').
Proof.
  destruct (Dict_update_get no_other ∅ a_dict empty_world ∅
              (PStr "a") (PInt 5) (PStr "x") (PStr "b") eq_refl eq_refl eq_refl)
    as (H1 & H2 & H3).
  repeat apply conj; [exact H1|exact H2|].
  apply H3. discriminate.
Defined.

Lemma Dict_delitem_field_witness :
  let w' := set_store (put_hash "d" (delete "a" {["a" := "5"]}) (store dict_world))
              dict_world in
  Dict___delitem__ no_other ∅ (PStr "a") a_dict dict_world = (Ok PNone, a_dict, w') /\
  Dict_get no_other ∅ (PStr "a") (PStr "x") a_dict w' = (Ok (PStr "x"), a_dict, w').
Proof.
  destruct (Dict_delitem_field no_other ∅ a_dict dict_world {["a" := "5"]}
              (PStr "a") (PStr "x") eq_refl eq_refl eq_refl) as (H1 & _ & H3).
  split; [exact H1|exact H3].
Defined.

Lemma Dict_value_field_names_witness :
  Dict_value no_other ∅ a_dict empty_world = (Ok (PDict []), a_dict, empty_world) /\
  Dict_value no_other ∅ a_dict dict_world = (Raise ValueError, a_dict, dict_world) /\
  Dict_items no_other ∅ a_dict dict_world = (Raise ValueError, a_dict, dict_world).
Proof.
  destruct (Dict_value_field_names no_other ∅ a_dict empty_world ∅
              eq_refl eq_refl eq_refl eq_refl) as (Hempty & _).
  destruct (Dict_value_field_names no_other ∅ a_dict dict_world {["a" := "5"]}
              eq_refl eq_refl eq_refl eq_refl) as (_ & Hbad).
  repeat apply conj.
  - apply Hempty. reflexivity.
  - apply (Hbad "a" "5"); [reflexivity|discriminate].
  - apply (Hbad "a" "5"); [reflexivity|discriminate].
Defined.

Lemma Base_del_deletes_witness :
  snd (Base___del__ no_other ∅ a_list list_world)
  = set_store (delete "l" (store list_world)) list_world /\
  List_value no_other ∅ int_list (set_store (delete "l" (store list_world)) list_world)
  = (Ok (PList []), int_list, set_store (delete "l" (store list_world)) list_world).
Proof.
  destruct (Base_del_deletes no_other ∅ a_list int_list list_world eq_refl)
    as (H1 & _ & _ & H4).
  split; [exact H1|]. apply H4; reflexivity.
Defined.

Lemma pipeline_runs_queued_witness :
  let w2 := snd (invoke no_other ∅ a_list "rpush" [PStr "x"] (snd (pipeline_enter empty_world))) in
  store w2 = ∅ /\
  store (snd (pipeline_exit no_other w2))
  = store (snd (invoke no_other ∅ a_list "rpush" [PStr "x"] empty_world)) /\
  fst (pipeline_exit no_other w2) = Ok tt /\
  _pipeline (snd (pipeline_exit no_other w2)) = None.
Proof.
  destruct (pipeline_runs_queued no_other ∅ a_list "rpush" [PStr "x"] empty_world
              {| prepare := variadic; execute := redis_execute "rpush" |} ["x"]
              eq_refl eq_refl eq_refl) as (_ & H2 & H3 & H4 & _).
  destruct (H4 (PInt 1) eq_refl) as [H5 H6].
  repeat apply conj; [exact H2|exact H3|exact H5|exact H6].
Defined.

Lemma call_in_batch_witness :
  let queued := {| store := ∅; pipelines := [[("llen", "l", [])]];
                   _pipeline := Some 0%nat |} in
  call no_other ∅ "llen" [] int_list batch_world = (Raise TypeError, int_list, queued) /\
  call no_other ∅ "llen" [] str_list batch_world = (Ok PPipeline, str_list, queued).
Proof.
  split.
  - apply (proj1 (call_in_batch no_other ∅ int_list "llen" [] batch_world (fixed 0) []
                    0%nat eq_refl eq_refl eq_refl) TInt); [reflexivity|by left].
  - apply (proj2 (call_in_batch no_other ∅ str_list "llen" [] batch_world (fixed 0) []
                    0%nat eq_refl eq_refl eq_refl)).
    by right.
Defined.

Lemma Dict_never_typed_witness :
  Forall (fun t => t = None)
    (type_trace no_other ∅
       [Dict_update_op (PDict [(PStr "a", PInt 5)]); Dict_get_op (PStr "a") PNone;
        Dict_setitem (PStr "a") (PInt 6); Dict_setdefault_op (PStr "b") (PInt 7)]
       a_dict empty_world).
Proof.
  apply (Dict_never_typed no_other ∅
           [Dict_update_op (PDict [(PStr "a", PInt 5)]); Dict_get_op (PStr "a") PNone;
            Dict_setitem (PStr "a") (PInt 6); Dict_setdefault_op (PStr "b") (PInt 7)]
           a_dict empty_world).
  reflexivity.
Defined.

Lemma List_slice_python_witness :
  List___getitem__ no_other ∅ (Slice (PInt 1) (PInt (-1))) a_list list_world
  = (Ok (PList [PStr "b"]), a_list, list_world) /\
  List___getitem__ no_other ∅ (Slice (PInt 0) (PInt 2)) a_list list_world
  = (Ok (PList [PStr "a"; PStr "b"]), a_list, list_world) /\
  List___getitem__ no_other ∅ (Slice (PInt 0) (PInt (2 ^ 63 + 1))) a_list list_world
  = (Raise ResponseError, a_list, list_world).
Proof.
  repeat apply conj.
  - apply (List_slice_python no_other ∅ a_list list_world ["a"; "b"; "c"] 1 (-1)
             eq_refl (or_introl eq_refl) eq_refl eq_refl);
      [lia|discriminate|reflexivity|reflexivity].
  - apply (List_slice_python no_other ∅ a_list list_world ["a"; "b"; "c"] 0 2
             eq_refl (or_introl eq_refl) eq_refl eq_refl);
      [lia|discriminate|reflexivity|reflexivity].
  - apply (List_slice_python no_other ∅ a_list list_world ["a"; "b"; "c"] 0 (2 ^ 63 + 1)
             eq_refl (or_introl eq_refl) eq_refl eq_refl).
    right. reflexivity.
Defined.

Lemma init_without_value_witness :
  List___init__ no_other ∅ (PInt 5) a_list list_world = (Ok PNone, a_list, list_world) /\
  Set___init__ no_other ∅ PNone str_set set_world = (Ok PNone, a_set, set_world) /\
  Dict___init__ no_other ∅ (PList []) a_dict dict_world = (Ok PNone, a_dict, dict_world).
Proof.
  repeat apply conj.
  - apply (init_without_value no_other ∅ a_list list_world (PInt 5)). by right.
  - apply (init_without_value no_other ∅ str_set set_world PNone). by left.
  - apply (init_without_value no_other ∅ a_dict dict_world (PList [])). by left.
Defined.

Lemma Set_algebra_plain_set_witness :
  Set_intersection no_other ∅ [PSet [PStr "b"; PStr "c"]] str_set set_world
  = (Ok (PSet (map PStr (filter (fun x => x ∈ ["b"; "c"]) (elements ({["a"; "b"]} : gset string))))),
     str_set, set_world) /\
  Set_isdisjoint no_other ∅ (PSet [PStr "b"; PStr "c"]) str_set set_world
  = (Ok (PBool false), str_set, set_world).
Proof.
  destruct (Set_algebra_plain_set no_other ∅ str_set set_world {["a"; "b"]} ["b"; "c"]
              eq_refl eq_refl eq_refl eq_refl) as (H1 & _ & H3).
  split; [exact H1|]. refine (eq_trans H3 _). by vm_compute.
Defined.

Lemma List_index_count_witness :
  List_index no_other ∅ (PStr "b") a_list list_world
  = (Ok (PInt 1), a_list, list_world) /\
  List_index no_other ∅ (PStr "z") a_list list_world
  = (Raise ValueError, a_list, list_world).
Proof.
  destruct (List_index_count no_other ∅ a_list list_world ["a"; "b"; "c"] "b"
              eq_refl (or_introl eq_refl) eq_refl eq_refl) as (Hin & _).
  destruct (List_index_count no_other ∅ a_list list_world ["a"; "b"; "c"] "z"
              eq_refl (or_introl eq_refl) eq_refl eq_refl) as (_ & Hout & _).
  split.
  - apply (Hin ["a"] ["c"]); [reflexivity|].
    rewrite list_elem_of_In. simpl. intuition discriminate.
  - apply Hout. rewrite list_elem_of_In. simpl. intuition discriminate.
Defined.

Lemma Dict_keys_fields_witness :
  exists names,
    Dict_keys no_other ∅ a_dict dict_world = (Ok (PList (map PStr names)), a_dict, dict_world)
    /\ NoDup names /\ forall f, f ∈ names <-> is_Some (({["a" := "5"]} : gmap string string) !! f).
Proof.
  exact (Dict_keys_fields no_other ∅ a_dict dict_world {["a" := "5"]}
           eq_refl eq_refl eq_refl eq_refl).
Defined.

Lemma List_mul_copies_witness :
  (exists new w',
     List___mul__ no_other ∅ (PInt 2) "n" a_list list_world = (Ok new, a_list, w') /\
     cls new = CList /\ key new = "n" /\
     List_value no_other ∅ new w'
     = (Ok (PList (map PStr ["a"; "b"; "c"; "a"; "b"; "c"])), new, w') /\
     List_value no_other ∅ a_list w'
     = (Ok (PList (map PStr ["a"; "b"; "c"])), a_list, w') /\
     (forall k, k <> "n" -> store w' !! k = store list_world !! k)) /\
  List___mul__ no_other ∅ (PInt (2 ^ 63)) "n" a_list list_world
  = (Raise OverflowError, a_list, list_world).
Proof.
  split.
  - apply (List_mul_copies no_other ∅ a_list list_world ["a"; "b"; "c"] 2 "n"
             eq_refl (or_introl eq_refl) eq_refl eq_refl eq_refl);
      [reflexivity|by vm_compute].
  - apply (List_mul_copies no_other ∅ a_list list_world ["a"; "b"; "c"] (2 ^ 63) "n"
             eq_refl (or_introl eq_refl) eq_refl eq_refl eq_refl).
    reflexivity.
Defined.

Lemma List_add_joins_witness :
  (exists new w',
     List___add__ no_other ∅ (OValue (PList (map PStr ["a"; "b"; "c"]))) "n" a_list list_world
     = (Ok new, a_list, w') /\
     List___add__ no_other ∅ (OHandle a_list) "n" a_list list_world = (Ok new, a_list, w') /\
     List_value no_other ∅ new w'
     = (Ok (PList (map PStr ["a"; "b"; "c"; "a"; "b"; "c"])), new, w')) /\
  List___add__ no_other ∅ (OHandle a_set) "n" a_list list_world
  = (Raise TypeError, a_list, list_world) /\
  List___add__ no_other ∅ (OValue (PTuple [PStr "a"])) "n" a_list list_world
  = (Raise TypeError, a_list, list_world).
Proof.
  destruct (List_add_joins no_other ∅ a_list a_list list_world ["a"; "b"; "c"]
              ["a"; "b"; "c"] "n" eq_refl (or_introl eq_refl) eq_refl eq_refl eq_refl)
    as ((new & w' & H1 & H2 & _ & _ & H3 & _) & _ & H5).
  destruct (List_add_joins no_other ∅ a_list a_set list_world ["a"; "b"; "c"]
              ["a"; "b"; "c"] "n" eq_refl (or_introl eq_refl) eq_refl eq_refl eq_refl)
    as (_ & H4 & _).
  split; [|split].
  - exists new, w'. split; [exact H1|]. split; [|exact H3].
    exact (H2 eq_refl (or_introl eq_refl) eq_refl).
  - apply H4. discriminate.
  - apply H5. discriminate.
Defined.
